(** * heredity.py: exact inference over a family pedigree

    A shallow embedding of [src/heredity.py] and the properties of its
    inference core: the probability table [PROBS], the parent classifier
    [parents], the product [joint_probability], the enumeration loops of
    [main], and the accumulators [update] and [normalize].

    Conventions of the embedding.
    - Python floats are read as exact rationals ([Q]); equalities between
      probabilities are stated with [==] ([Qeq]).
    - Python sets of names are [gset string]; [list(s)] is [elements s], a
      fixed but otherwise unspecified order, as in Python.
    - The dict [people] is an association list in insertion order; its keys
      are the names of the persons.
    - Exceptions are values of [exn]; a fallible function returns
      [result A]. *)

From Stdlib Require Import QArith Lia Lqa.
From stdpp Require Import base decidable option list gmap sets strings.

Open Scope Q_scope.

(** ** Exceptions *)

Inductive exn : Set :=
  | KeyError
  | TypeError
  | ZeroDivisionError
  | NotImplementedError.

Inductive result (A : Type) : Type :=
  | Ok (a : A)
  | Raise (e : exn).

Arguments Ok {A} a.
Arguments Raise {A} e.

#[global] Instance exn_eq_dec : EqDecision exn.
Proof. solve_decision. Defined.

#[global] Instance result_eq_dec {A : Type} `{EqDecision A} : EqDecision (result A).
Proof. solve_decision. Defined.

#[global] Instance result_ret : MRet result := fun A a => Ok a.

#[global] Instance result_bind : MBind result := fun A B f r =>
  match r with
  | Ok a => f a
  | Raise e => Raise e
  end.

(** Python's short-circuit [and] and [or] over fallible operands. *)
Definition and_then (a b : result bool) : result bool :=
  x ← a; if x : bool then b else Ok false.

Definition or_else (a b : result bool) : result bool :=
  x ← a; if x : bool then Ok true else b.

Infix "&&&" := and_then (at level 40, left associativity).
Infix "|||" := or_else (at level 50, left associativity).

(** ** The probability table [PROBS] *)

Module PROBS.

(** [PROBS["gene"][k]]: the table has the keys 2, 1 and 0 only, and the
    program indexes it with these literals only. *)
Definition gene (k : nat) : Q :=
  match k with
  | 2%nat => 0.01
  | 1%nat => 0.03
  | _ => 0.96
  end.

(** [PROBS["trait"][k][b]]. *)
Definition trait (k : nat) (b : bool) : Q :=
  match k with
  | 2%nat => if b then 0.65 else 0.35
  | 1%nat => if b then 0.56 else 0.44
  | _ => if b then 0.01 else 0.99
  end.

(** [PROBS["mutation"]]. *)
Definition mutation : Q := 0.01.

End PROBS.

(** ** The pedigree *)

(** One row of the dict built by [load_data]. *)
Record Person : Set := {
  name : string;
  mother : option string;
  father : option string;
  trait : option bool
}.

(** The dict [people], in insertion order. *)
Definition People : Type := list (string * Person).

Definition keys (people : People) : list string := fst <$> people.

Fixpoint find_key (people : People) (person : string) : option Person :=
  match people with
  | [] => None
  | (k, r) :: rest => if decide (k = person) then Some r else find_key rest person
  end.

(** [people[person]]. *)
Definition getitem (people : People) (person : string) : result Person :=
  match find_key people person with
  | Some r => Ok r
  | None => Raise KeyError
  end.

(** The two record keys that [zero_copies] and [parents] read. *)
Inductive parent_key : Set := Father | Mother.

(** [r[parent]]. *)
Definition get_parent (r : Person) (parent : parent_key) : option string :=
  match parent with
  | Father => father r
  | Mother => mother r
  end.

(** [x in s] for a value that is a name or [None]: a set of names never
    holds [None]. *)
Definition py_in (x : option string) (s : gset string) : bool :=
  match x with
  | Some n => bool_decide (n ∈ s)
  | None => false
  end.

(** [people[person][parent] in s]. *)
Definition parent_in (people : People) (person : string) (parent : parent_key)
    (s : gset string) : result bool :=
  r ← getitem people person; Ok (py_in (get_parent r parent) s).

(** ** [powerset] *)

(** [itertools.combinations(l, r)], in its lexicographic order. *)
Fixpoint combinations {A : Type} (l : list A) (r : nat) : list (list A) :=
  match r, l with
  | O, _ => [[]]
  | S _, [] => []
  | S r', x :: l' => (cons x <$> combinations l' r') ++ combinations l' r
  end.

Definition powerset (s : gset string) : list (gset string) :=
  let s := elements s in
  list_to_set <$> (r ← seq 0 (S (length s)); combinations s r).

(** ** The helpers of [joint_probability] *)

Definition check_parents (people : People) (person : string) : result bool :=
  r ← getitem people person;
  if bool_decide (father r = None) && bool_decide (mother r = None)
  then Ok true
  else Ok false.

Definition gene_prob (person : string) (one_gene two_genes have_trait : gset string) : Q :=
  if bool_decide (person ∈ have_trait) then
    if bool_decide (person ∈ one_gene) then PROBS.gene 1 * PROBS.trait 1 true
    else if bool_decide (person ∈ two_genes) then PROBS.gene 2 * PROBS.trait 2 true
    else PROBS.gene 0 * PROBS.trait 0 true
  else
    if bool_decide (person ∈ one_gene) then PROBS.gene 1 * PROBS.trait 1 false
    else if bool_decide (person ∈ two_genes) then PROBS.gene 2 * PROBS.trait 2 false
    else PROBS.gene 0 * PROBS.trait 0 false.

Definition zero_copies (people : People) (parent : parent_key) (person : string)
    (one_gene two_genes : gset string) : result bool :=
  r ← getitem people person;
  if negb (py_in (get_parent r parent) one_gene) && negb (py_in (get_parent r parent) two_genes)
  then Ok true
  else Ok false.

(** [parents] returns a code, or [None] when no [if] fires. *)
Definition parents (people : People) (person : string)
    (one_gene two_genes : gset string) : result (option Z) :=
  c0 ← zero_copies people Father person one_gene two_genes
        &&& zero_copies people Mother person one_gene two_genes;
  if c0 : bool then Ok (Some 0%Z) else
  c1 ← parent_in people person Father one_gene
        &&& parent_in people person Mother one_gene;
  if c1 : bool then Ok (Some 1%Z) else
  c2 ← parent_in people person Father two_genes
        &&& parent_in people person Mother two_genes;
  if c2 : bool then Ok (Some 2%Z) else
  c3 ← (parent_in people person Father one_gene
          &&& parent_in people person Mother two_genes)
        ||| (parent_in people person Father two_genes
          &&& parent_in people person Mother one_gene);
  if c3 : bool then Ok (Some 3%Z) else
  c4 ← (zero_copies people Father person one_gene two_genes
          &&& parent_in people person Mother one_gene)
        ||| (zero_copies people Mother person one_gene two_genes
          &&& parent_in people person Father one_gene);
  if c4 : bool then Ok (Some 4%Z) else
  c5 ← (zero_copies people Father person one_gene two_genes
          &&& parent_in people person Mother two_genes)
        ||| (zero_copies people Mother person one_gene two_genes
          &&& parent_in people person Father two_genes);
  if c5 : bool then Ok (Some 5%Z) else
  Ok None.

(** ** [joint_probability] *)

(** The second multiplication of every branch:
    [joint_p *= PROBS["trait"][k][True]] when the name is in [have_trait],
    [joint_p *= PROBS["trait"][k][False]] otherwise. *)
Definition trait_given (k : nat) (in_have_trait : bool) : Q :=
  if in_have_trait then PROBS.trait k true else PROBS.trait k false.

(** One block [if parents(people, person, one_gene, two_genes) == code: ...]
    of the non-founder branch.  [g1], [g2] and [g0] are the expressions the
    block multiplies into [joint_p] in its [one_gene], [two_genes] and
    [else] branch; the result lists, in order, what the block multiplies
    into [joint_p]. *)
Definition block (code : Z) (g1 g2 g0 : Q) (people : People) (person : string)
    (one_gene two_genes have_trait : gset string) : result (list Q) :=
  c ← parents people person one_gene two_genes;
  if bool_decide (c = Some code) then
    r ← getitem people person;
    if bool_decide (name r ∈ one_gene) then
      Ok [g1; trait_given 1 (bool_decide (name r ∈ have_trait))]
    else if bool_decide (name r ∈ two_genes) then
      Ok [g2; trait_given 2 (bool_decide (name r ∈ have_trait))]
    else
      Ok [g0; trait_given 0 (bool_decide (name r ∈ have_trait))]
  else Ok [].

(** The body of the loop [for person in people]: the values multiplied into
    [joint_p] for [person], in order. *)
Definition person_factors (people : People) (person : string)
    (one_gene two_genes have_trait : gset string) : result (list Q) :=
  let m := PROBS.mutation in
  founder ← check_parents people person;
  if founder : bool then
    Ok [gene_prob person one_gene two_genes have_trait]
  else
    (* zero copies in both parents *)
    f0 ← block 0 ((1 - m) * m + (1 - m) * m)
                 (m * m)
                 ((1 - m) * (1 - m))
            people person one_gene two_genes have_trait;
    (* one copy for both parents *)
    f1 ← block 1 ((0.5 * 0.5) + (0.5 * 0.5))
                 (0.5 * 0.5)
                 (0.5 * 0.5)
            people person one_gene two_genes have_trait;
    (* two copies for both parents *)
    f2 ← block 2 ((1 - m) * m + (1 - m) * m)
                 ((1 - m) * (1 - m))
                 (m * m)
            people person one_gene two_genes have_trait;
    (* one copy for one parent and two copies for the other parent *)
    f3 ← block 3 ((0.5 * m) + ((1 - m) * 0.5))
                 (0.5 * (1 - m))
                 (0.5 * m)
            people person one_gene two_genes have_trait;
    (* one copy for one parent and zero copies for the other parent *)
    f4 ← block 4 ((0.5 * m) + ((1 - m) * 0.5))
                 (0.5 * m)
                 ((1 - m) * 0.5)
            people person one_gene two_genes have_trait;
    (* two copies for one parent and zero copies for the other parent *)
    f5 ← block 5 ((1 - m * 1 - m) + m * m)
                 ((1 - m) * m)
                 ((1 - m) * m)
            people person one_gene two_genes have_trait;
    Ok (f0 ++ f1 ++ f2 ++ f3 ++ f4 ++ f5).

(** [for x in xs: acc = body(acc, x)], stopping at the first exception. *)
Fixpoint for_each {A S : Type} (body : S → A → result S) (xs : list A) (acc : S)
    : result S :=
  match xs with
  | [] => Ok acc
  | x :: rest => acc' ← body acc x; for_each body rest acc'
  end.

Definition joint_probability (people : People)
    (one_gene two_genes have_trait : gset string) : result Q :=
  for_each
    (fun joint_p person =>
       fs ← person_factors people person one_gene two_genes have_trait;
       Ok (fold_left Qmult fs joint_p))
    (keys people) 1.

(** ** The accumulators [update] and [normalize] *)

(** The keys and values of the dict [probabilities]: person names and the
    field names ["gene"] and ["trait"] are strings, the gene counts are
    integers, the trait values are booleans; a value is a number or a
    nested dict. *)
Inductive key : Set :=
  | KStr (s : string)
  | KInt (n : Z)
  | KBool (b : bool).

#[local] Unset Elimination Schemes.
Inductive value : Type :=
  | VNum (q : Q)
  | VDict (items : list (key * value)).
#[local] Set Elimination Schemes.

Definition pydict : Type := list (key * value).

#[global] Instance key_eq_dec : EqDecision key.
Proof. solve_decision. Defined.

(** [d[k] = v] for a key the dict already has (a new key is appended). *)
Fixpoint setitem (d : pydict) (k : key) (v : value) : pydict :=
  match d with
  | [] => [(k, v)]
  | (k', v') :: rest =>
      if decide (k' = k) then (k, v) :: rest else (k', v') :: setitem rest k v
  end.

(** [a + b], [a / b] and [a * b] as the program uses them: defined on
    numbers, [TypeError] when an operand is a dict. *)
Definition py_add (a b : value) : result value :=
  match a, b with
  | VNum x, VNum y => Ok (VNum (x + y))
  | _, _ => Raise TypeError
  end.

Definition py_truediv (a b : value) : result value :=
  match a, b with
  | VNum x, VNum y =>
      if Qeq_bool y 0 then Raise ZeroDivisionError else Ok (VNum (x / y))
  | _, _ => Raise TypeError
  end.

Definition py_mul (a b : value) : result value :=
  match a, b with
  | VNum x, VNum y => Ok (VNum (x * y))
  | _, _ => Raise TypeError
  end.

(** The builtin [sum(vs)]: [0 + v1 + v2 + ...], left to right. *)
Definition py_sum (vs : list value) : result value :=
  for_each py_add vs (VNum 0).

(** The dict comprehension at the head of [main]. *)
Definition zero_distributions : value :=
  VDict [ (KStr "gene", VDict [ (KInt 2, VNum 0); (KInt 1, VNum 0); (KInt 0, VNum 0) ]);
          (KStr "trait", VDict [ (KBool true, VNum 0); (KBool false, VNum 0) ]) ].

Definition initial_probabilities (people : People) : pydict :=
  (fun person => (KStr person, zero_distributions)) <$> keys people.

(** [update] is the unimplemented stub of the distribution code: its body
    is [raise NotImplementedError]. *)
Definition update (probabilities : pydict) (one_gene two_genes have_trait : gset string)
    (p : Q) : result pydict :=
  Raise NotImplementedError.

Definition normalize (probabilities : pydict) : result pydict :=
  total ← py_sum (snd <$> probabilities);
  total_inverse ← py_truediv (VNum 1) total;
  for_each
    (fun probabilities '(key, val) =>
       scaled ← py_mul val total_inverse;
       Ok (setitem probabilities key scaled))
    probabilities probabilities.

(** ** The enumeration driver of [main] *)

(** The builtin [any] over a generator: it stops at the first [True]. *)
Fixpoint py_any {A : Type} (f : A → result bool) (xs : list A) : result bool :=
  match xs with
  | [] => Ok false
  | x :: rest => b ← f x; if b : bool then Ok true else py_any f rest
  end.

(** [people[person]["trait"] is not None and
     people[person]["trait"] != (person in have_trait)]. *)
Definition violates (people : People) (have_trait : gset string) (person : string)
    : result bool :=
  r ← getitem people person;
  Ok match trait r with
     | None => false
     | Some t => negb (eqb t (bool_decide (person ∈ have_trait)))
     end.

Definition fails_evidence (people : People) (names have_trait : gset string)
    : result bool :=
  py_any (violates people have_trait) (elements names).

(** An assignment triple, in the argument order of [joint_probability]:
    [(one_gene, two_genes, have_trait)]. *)
Definition triple : Type := (gset string * gset string * gset string)%type.

(** A run of the driver: the triples at which it has called
    [joint_probability], in order, and how it ended. *)
Definition traced (A : Type) : Type := (list triple * result A)%type.

#[global] Instance traced_ret : MRet traced := fun A a => ([], Ok a).

#[global] Instance traced_bind : MBind traced := fun A B f r =>
  match r with
  | (t, Ok a) => let '(t', b) := f a in (t ++ t', b)
  | (t, Raise e) => (t, Raise e)
  end.

Definition lift {A : Type} (r : result A) : traced A := ([], r).

Definition called (t : triple) : traced unit := ([t], Ok tt).

Fixpoint for_each_traced {A S : Type} (body : S → A → traced S) (xs : list A) (acc : S)
    : traced S :=
  match xs with
  | [] => mret acc
  | x :: rest => acc' ← body acc x; for_each_traced body rest acc'
  end.

(** [main] from the point where [people] is loaded to the call of
    [normalize]; the value returned stands for what the final loop prints.
    [main] reaches [update] through the module's global binding of that
    name, so the loops are written once for any binding. *)
Section Driver.

Variable update_binding :
  pydict → gset string → gset string → gset string → Q → result pydict.

Definition main_with (people : People) : traced pydict :=
  let probabilities := initial_probabilities people in
  let names : gset string := list_to_set (keys people) in
  probabilities ←
    for_each_traced
      (fun probabilities have_trait =>
         fails ← lift (fails_evidence people names have_trait);
         if fails : bool then mret probabilities
         else
           for_each_traced
             (fun probabilities one_gene =>
                for_each_traced
                  (fun probabilities two_genes =>
                     called (one_gene, two_genes, have_trait);;
                     p ← lift (joint_probability people one_gene two_genes have_trait);
                     lift (update_binding probabilities one_gene two_genes have_trait p))
                  (powerset (names ∖ one_gene)) probabilities)
             (powerset names) probabilities)
      (powerset names) probabilities;
  lift (normalize probabilities).

End Driver.

Definition main (people : People) : traced pydict := main_with update people.

(** ** Sample pedigrees *)

Module Samples.

Definition founder (n : string) (t : option bool) : Person :=
  {| name := n; mother := None; father := None; trait := t |}.

Definition child (n mo fa : string) (t : option bool) : Person :=
  {| name := n; mother := Some mo; father := Some fa; trait := t |}.

Definition harry : Person := child "Harry" "Lily" "James" (Some true).
Definition james : Person := founder "James" None.
Definition lily : Person := founder "Lily" None.

(** The family of the end-to-end scenario. *)
Definition family : People :=
  [ ("Harry", harry); ("James", james); ("Lily", lily) ].

(** A lone founder without evidence. *)
Definition lone : People := [ ("Harry", founder "Harry" None) ].

(** A row whose father is blank, and a row whose parents are not rows. *)
Definition one_parent : People :=
  [ ("Harry", {| name := "Harry"; mother := Some "Lily"; father := None;
                 trait := None |});
    ("Lily", lily) ].

Definition dangling : People := [ ("Harry", child "Harry" "Lily" "James" None) ].

(** Sets of names. *)
Definition nobody : gset string := ∅.
Definition only (n : string) : gset string := {[ n ]}.
Definition both (n1 n2 : string) : gset string := {[ n1; n2 ]}.

End Samples.

(** ** Notions of the specification *)

(** The gene-count bucket an assignment gives a person: 2 if in
    [two_genes], 1 if in [one_gene], else 0. *)
Definition copies (person : string) (one_gene two_genes : gset string) : nat :=
  if bool_decide (person ∈ two_genes) then 2%nat
  else if bool_decide (person ∈ one_gene) then 1%nat
  else 0%nat.

(** The case number of each of the nine (father-bucket, mother-bucket)
    combinations, as the comments of [joint_probability] name them. *)
Definition case_of (father_copies mother_copies : nat) : Z :=
  match father_copies, mother_copies with
  | 0%nat, 0%nat => 0%Z
  | 1%nat, 1%nat => 1%Z
  | 2%nat, 2%nat => 2%Z
  | 1%nat, 2%nat | 2%nat, 1%nat => 3%Z
  | 0%nat, 1%nat | 1%nat, 0%nat => 4%Z
  | _, _ => 5%Z
  end.

(** A row is well formed when both parents are blank, or both are names
    of rows of the pedigree. *)
Definition row_ok (people : People) (r : Person) : bool :=
  match mother r, father r with
  | None, None => true
  | Some mo, Some fa =>
      bool_decide (mo ∈ keys people) && bool_decide (fa ∈ keys people)
  | _, _ => false
  end.

Definition malformed (people : People) : bool :=
  negb (forallb (fun kr => row_ok people kr.2) people).

(** A parent field that is blank, or names no row of the pedigree. *)
Definition absent_parent (people : People) (r : Person) (parent : parent_key) : Prop :=
  match get_parent r parent with
  | None => True
  | Some n => n ∉ keys people
  end.

(** The trait evidence holds in [have_trait]: every person with a known
    trait is in [have_trait] exactly when the trait is observed. *)
Definition respects_evidence (people : People) (have_trait : gset string) : Prop :=
  ∀ person r b,
    getitem people person = Ok r → trait r = Some b →
    bool_decide (person ∈ have_trait) = b.

(** The closed forms of the specification for a child of two 0-copy
    parents and for a child of two 1-copy parents, by the child's bucket. *)
Definition zero_zero_law (child_copies : nat) : Q :=
  let m := PROBS.mutation in
  match child_copies with
  | 2%nat => m * m
  | 1%nat => 2 * m * (1 - m)
  | _ => (1 - m) * (1 - m)
  end.

Definition one_one_law (child_copies : nat) : Q :=
  match child_copies with
  | 2%nat => 0.25
  | 1%nat => 0.5
  | _ => 0.25
  end.

(** The closed form of the specification for a child in [one_gene] with
    one 2-copy parent and one 0-copy parent. *)
Definition two_zero_one_copy_law : Q :=
  let m := PROBS.mutation in (1 - m) * (1 - m) + m * m.

(** A probability lies between 0 and 1. *)
Definition unit_interval (q : Q) : Prop := 0 <= q <= 1.

(** ** Auxiliary definitions of the proofs *)

(** [parents] as a function of the four membership tests it makes. *)
Definition classify (f1 f2 m1 m2 : bool) : option Z :=
  if negb f1 && negb f2 && (negb m1 && negb m2) then Some 0%Z
  else if f1 && m1 then Some 1%Z
  else if f2 && m2 then Some 2%Z
  else if f1 && m2 || f2 && m1 then Some 3%Z
  else if negb f1 && negb f2 && m1 || negb m1 && negb m2 && f1 then Some 4%Z
  else if negb f1 && negb f2 && m2 || negb m1 && negb m2 && f2 then Some 5%Z
  else None.

(** The branch a block takes for a child: the code tests [one_gene] first. *)
Definition branch_of (child : string) (og tg : gset string) : nat :=
  if bool_decide (child ∈ og) then 1%nat
  else if bool_decide (child ∈ tg) then 2%nat
  else 0%nat.

(** The expression a block multiplies in for the branch [k]. *)
Definition pick (k : nat) (g1 g2 g0 : Q) : Q :=
  match k with
  | 1%nat => g1
  | 2%nat => g2
  | _ => g0
  end.

(** The people whose trait is observed: a [have_trait] that passes the
    evidence filter of every pedigree. *)
Definition observed (people : People) : gset string :=
  list_to_set
    (filter (λ person, find_key people person ≫= trait = Some true) (keys people)).

(** ** [load_data] *)

(** One row as [csv.DictReader] yields it for a line of the file: the
    fields [name], [mother], [father] and [trait]. *)
Record Row : Set := {
  row_name : string;
  row_mother : string;
  row_father : string;
  row_trait : string
}.

(** [s or None] for a string [s]: the blank string counts as false. *)
Definition or_None (s : string) : option string :=
  if decide (s = "") then None else Some s.

(** The dict literal [load_data] stores for a row. *)
Definition person_of_row (row : Row) : Person :=
  {| name := row_name row;
     mother := or_None (row_mother row);
     father := or_None (row_father row);
     trait := if decide (row_trait row = "1") then Some true
              else if decide (row_trait row = "0") then Some false
              else None |}.

(** [data[k] = r]: a key the dict has keeps its place, a new key goes to
    the end. *)
Fixpoint store (data : People) (k : string) (r : Person) : People :=
  match data with
  | [] => [(k, r)]
  | (k', r') :: rest =>
      if decide (k' = k) then (k, r) :: rest else (k', r') :: store rest k r
  end.

(** The loop of [load_data] over the rows of the reader. *)
Definition load_data (rows : list Row) : People :=
  fold_left (fun data row => store data (row_name row) (person_of_row row)) rows [].

(** ** Further auxiliary definitions *)

(** The triples of the three nested loops of [main], as one comprehension. *)
Definition loop_triples (people : People) : list triple :=
  let names : gset string := list_to_set (keys people) in
  have_trait ← powerset names;
  match fails_evidence people names have_trait with
  | Ok false =>
      one_gene ← powerset names;
      two_genes ← powerset (names ∖ one_gene);
      [(one_gene, two_genes, have_trait)]
  | _ => []
  end.

(** The product of a list of numbers, left to right from 1. *)
Definition Qprod (qs : list Q) : Q := fold_left Qmult qs 1.

(** A flat dict of numbers, as a value of [pydict]. *)
Definition flat (d : list (key * Q)) : pydict := (fun kq => (kq.1, VNum kq.2)) <$> d.

(** A row with its parents exchanged. *)
Definition swap_parents (r : Person) : Person :=
  {| name := name r; mother := father r; father := mother r; trait := trait r |}.

(** * Properties *)

(** ** Lookups *)

Lemma find_key_Some (people : People) (person : string) (r : Person) :
  find_key people person = Some r → person ∈ keys people.
Proof.
  induction people as [|[k r'] rest IH]; simpl; [done|].
  case_decide as Hk.
  - intros _. subst. apply list_elem_of_here.
  - intros H. apply list_elem_of_further. auto.
Qed.

Lemma find_key_is_Some (people : People) (person : string) :
  person ∈ keys people → is_Some (find_key people person).
Proof.
  induction people as [|[k r'] rest IH]; simpl.
  - intros H. by apply elem_of_nil in H.
  - intros H. case_decide as Hk; [by eexists|].
    apply elem_of_cons in H as [H|H]; [by subst|auto].
Qed.

Lemma getitem_Ok (people : People) (person : string) (r : Person) :
  getitem people person = Ok r → person ∈ keys people.
Proof.
  unfold getitem. destruct (find_key people person) as [r'|] eqn:E; [|done].
  intros _. by eapply find_key_Some.
Qed.

Lemma getitem_key (people : People) (person : string) :
  person ∈ keys people → ∃ r, getitem people person = Ok r.
Proof.
  intros H. apply find_key_is_Some in H as [r Hr].
  exists r. unfold getitem. by rewrite Hr.
Qed.

(** ** The parent classifier *)

Lemma zero_copies_eq people parent person og tg r :
  getitem people person = Ok r →
  zero_copies people parent person og tg
  = Ok (negb (py_in (get_parent r parent) og) && negb (py_in (get_parent r parent) tg)).
Proof.
  intros H. unfold zero_copies. rewrite H. simpl.
  by destruct (negb _ && negb _).
Qed.

Lemma parent_in_eq people parent person s r :
  getitem people person = Ok r →
  parent_in people person parent s = Ok (py_in (get_parent r parent) s).
Proof. intros H. unfold parent_in. by rewrite H. Qed.

Lemma parents_classify people person og tg r :
  getitem people person = Ok r →
  parents people person og tg
  = Ok (classify (py_in (father r) og) (py_in (father r) tg)
                 (py_in (mother r) og) (py_in (mother r) tg)).
Proof.
  intros H. unfold parents.
  rewrite !(zero_copies_eq _ _ _ _ _ _ H), !(parent_in_eq _ _ _ _ _ H). simpl.
  by destruct (py_in (father r) og), (py_in (father r) tg),
              (py_in (mother r) og), (py_in (mother r) tg).
Qed.

Lemma classify_total f1 f2 m1 m2 :
  ∃ c, classify f1 f2 m1 m2 = Some c ∧ (0 ≤ c ≤ 5)%Z.
Proof. destruct f1, f2, m1, m2; simpl; eexists; (split; [reflexivity|lia]). Qed.

Lemma py_in_copies (x : string) (og tg : gset string) :
  og ## tg →
  (py_in (Some x) og, py_in (Some x) tg)
  = match copies x og tg with
    | 2%nat => (false, true)
    | 1%nat => (true, false)
    | _ => (false, false)
    end.
Proof.
  intros Hd. unfold copies, py_in.
  destruct (bool_decide_reflect (x ∈ tg)) as [Ht|Ht];
    destruct (bool_decide_reflect (x ∈ og)) as [Ho|Ho]; try done.
  set_solver.
Qed.

Lemma copies_le_2 x og tg : (copies x og tg ≤ 2)%nat.
Proof. unfold copies. repeat case_bool_decide; lia. Qed.

Lemma parents_case people person og tg r fa mo :
  getitem people person = Ok r →
  father r = Some fa → mother r = Some mo → og ## tg →
  parents people person og tg = Ok (Some (case_of (copies fa og tg) (copies mo og tg))).
Proof.
  intros H Hf Hm Hd. rewrite (parents_classify _ _ _ _ _ H), Hf, Hm.
  pose proof (py_in_copies fa og tg Hd) as Ef.
  pose proof (py_in_copies mo og tg Hd) as Em.
  pose proof (copies_le_2 fa og tg). pose proof (copies_le_2 mo og tg).
  destruct (copies fa og tg) as [|[|[|?]]]; [| | |lia];
    destruct (copies mo og tg) as [|[|[|?]]]; try lia;
    apply pair_equal_spec in Ef as [-> ->];
    apply pair_equal_spec in Em as [-> ->]; reflexivity.
Qed.

(** ** The factors of one person *)

Lemma branch_of_copies child og tg : og ## tg → branch_of child og tg = copies child og tg.
Proof.
  intros Hd. unfold branch_of, copies.
  repeat case_bool_decide; try done. set_solver.
Qed.

Lemma bool_decide_Some (c code : Z) :
  bool_decide (Some c = Some code) = bool_decide (c = code).
Proof. apply bool_decide_ext. split; congruence. Qed.

Lemma check_parents_eq people person r :
  getitem people person = Ok r →
  check_parents people person
  = Ok (bool_decide (father r = None) && bool_decide (mother r = None)).
Proof.
  intros H. unfold check_parents. rewrite H. simpl.
  by destruct (_ && _).
Qed.

Lemma block_eq code g1 g2 g0 people person og tg ht r c :
  getitem people person = Ok r →
  parents people person og tg = Ok c →
  block code g1 g2 g0 people person og tg ht
  = Ok (if bool_decide (c = Some code)
        then [ pick (branch_of (name r) og tg) g1 g2 g0;
               trait_given (branch_of (name r) og tg) (bool_decide (name r ∈ ht)) ]
        else []).
Proof.
  intros H Hc. unfold block, branch_of. rewrite Hc. simpl.
  case_bool_decide; [|done]. rewrite H. simpl.
  by repeat case_bool_decide.
Qed.

Lemma person_factors_founder people person og tg ht r :
  getitem people person = Ok r →
  father r = None → mother r = None →
  person_factors people person og tg ht = Ok [gene_prob person og tg ht].
Proof.
  intros H Hf Hm. unfold person_factors.
  rewrite (check_parents_eq _ _ _ H), Hf, Hm. reflexivity.
Qed.

Lemma person_factors_child people person og tg ht r c :
  getitem people person = Ok r →
  bool_decide (father r = None) && bool_decide (mother r = None) = false →
  parents people person og tg = Ok (Some c) →
  let m := PROBS.mutation in
  let k := branch_of (name r) og tg in
  let t := trait_given k (bool_decide (name r ∈ ht)) in
  person_factors people person og tg ht
  = Ok ((if bool_decide (c = 0%Z)
         then [pick k ((1 - m) * m + (1 - m) * m) (m * m) ((1 - m) * (1 - m)); t] else [])
        ++ (if bool_decide (c = 1%Z)
            then [pick k ((0.5 * 0.5) + (0.5 * 0.5)) (0.5 * 0.5) (0.5 * 0.5); t] else [])
        ++ (if bool_decide (c = 2%Z)
            then [pick k ((1 - m) * m + (1 - m) * m) ((1 - m) * (1 - m)) (m * m); t] else [])
        ++ (if bool_decide (c = 3%Z)
            then [pick k ((0.5 * m) + ((1 - m) * 0.5)) (0.5 * (1 - m)) (0.5 * m); t] else [])
        ++ (if bool_decide (c = 4%Z)
            then [pick k ((0.5 * m) + ((1 - m) * 0.5)) (0.5 * m) ((1 - m) * 0.5); t] else [])
        ++ (if bool_decide (c = 5%Z)
            then [pick k ((1 - m * 1 - m) + m * m) ((1 - m) * m) ((1 - m) * m); t] else [])).
Proof.
  intros H Hnf Hc m k t. unfold person_factors.
  rewrite (check_parents_eq _ _ _ H), Hnf. simpl.
  rewrite !(block_eq _ _ _ _ _ _ _ _ _ _ _ H Hc). simpl.
  by rewrite !bool_decide_Some.
Qed.

Lemma trait_given_eq k b : trait_given k b = PROBS.trait k b.
Proof. by destruct b. Qed.

(** A child with both parents recorded sits in exactly one block; its two
    factors are the gene factor of its branch and the trait conditional. *)
Lemma person_factors_case people person og tg ht r fa mo :
  getitem people person = Ok r →
  father r = Some fa → mother r = Some mo → og ## tg →
  let m := PROBS.mutation in
  let k := copies (name r) og tg in
  person_factors people person og tg ht
  = Ok [ match case_of (copies fa og tg) (copies mo og tg) with
         | 0%Z => pick k ((1 - m) * m + (1 - m) * m) (m * m) ((1 - m) * (1 - m))
         | 1%Z => pick k ((0.5 * 0.5) + (0.5 * 0.5)) (0.5 * 0.5) (0.5 * 0.5)
         | 2%Z => pick k ((1 - m) * m + (1 - m) * m) ((1 - m) * (1 - m)) (m * m)
         | 3%Z => pick k ((0.5 * m) + ((1 - m) * 0.5)) (0.5 * (1 - m)) (0.5 * m)
         | 4%Z => pick k ((0.5 * m) + ((1 - m) * 0.5)) (0.5 * m) ((1 - m) * 0.5)
         | _ => pick k ((1 - m * 1 - m) + m * m) ((1 - m) * m) ((1 - m) * m)
         end;
         PROBS.trait k (bool_decide (name r ∈ ht)) ].
Proof.
  intros H Hf Hm Hd m k.
  assert (Hnf : bool_decide (father r = None) && bool_decide (mother r = None) = false).
  { rewrite Hf. reflexivity. }
  pose proof (parents_case _ _ _ _ _ _ _ H Hf Hm Hd) as Hc.
  rewrite (person_factors_child _ _ _ _ _ _ _ H Hnf Hc).
  rewrite (branch_of_copies _ _ _ Hd), trait_given_eq. fold k.
  pose proof (copies_le_2 fa og tg). pose proof (copies_le_2 mo og tg).
  destruct (copies fa og tg) as [|[|[|?]]]; [| | |lia];
    destruct (copies mo og tg) as [|[|[|?]]]; try lia; reflexivity.
Qed.

(** C10. For a person with both parents recorded and disjoint [one_gene]
    and [two_genes], [parents] returns a code between 0 and 5, never
    [None]; the code is the one of the (father-bucket, mother-bucket)
    combination, so exactly one block of [joint_probability] contributes the
    person's two factors. *)
Theorem parents_covers_all_cases people person r fa mo og tg ht :
  getitem people person = Ok r →
  father r = Some fa → mother r = Some mo →
  og ## tg →
  ∃ c, parents people person og tg = Ok (Some c)
       ∧ (0 ≤ c ≤ 5)%Z
       ∧ c = case_of (copies fa og tg) (copies mo og tg)
       ∧ ∃ g t, person_factors people person og tg ht = Ok [g; t].
Proof.
  intros H Hf Hm Hd. eexists. split; [by eapply parents_case|].
  split; [|split; [reflexivity|]].
  - pose proof (copies_le_2 fa og tg). pose proof (copies_le_2 mo og tg).
    destruct (copies fa og tg) as [|[|[|?]]]; [| | |lia];
      destruct (copies mo og tg) as [|[|[|?]]]; simpl; lia.
  - rewrite (person_factors_case _ _ _ _ _ _ _ _ H Hf Hm Hd). eauto.
Qed.

Lemma parents_covers_all_cases_witness :
  let og := Samples.only "Lily" in
  let tg := Samples.only "James" in
  ∃ c, parents Samples.family "Harry" og tg = Ok (Some c)
       ∧ (0 ≤ c ≤ 5)%Z
       ∧ c = case_of (copies "James" og tg) (copies "Lily" og tg)
       ∧ ∃ g t, person_factors Samples.family "Harry" og tg Samples.nobody = Ok [g; t].
Proof.
  apply (parents_covers_all_cases Samples.family "Harry" Samples.harry
           "James" "Lily" (Samples.only "Lily") (Samples.only "James") Samples.nobody);
    [reflexivity | reflexivity | reflexivity | ].
  apply (bool_decide_unpack _). vm_compute. exact I.
Defined.

(** C5. For a child both of whose parents have 0 copies, the gene factor is
    [m * m = 0.0001] when the child is in [two_genes], [(1 - m) * (1 - m) =
    0.9801] when the child has 0 copies and [2 * m * (1 - m) = 0.0198] when
    the child is in [one_gene]; the three values sum to 1.  The child's
    bucket is read at the name its row records, [name r], as the code
    reads it; [one_gene] and [two_genes] are disjoint. *)
Theorem zero_copy_parents_factors people person r fa mo og tg ht :
  getitem people person = Ok r →
  father r = Some fa → mother r = Some mo →
  og ## tg →
  copies fa og tg = 0%nat → copies mo og tg = 0%nat →
  (∃ g, person_factors people person og tg ht
        = Ok [g; PROBS.trait (copies (name r) og tg) (bool_decide (name r ∈ ht))]
        ∧ g == zero_zero_law (copies (name r) og tg))
  ∧ zero_zero_law 2 == 0.0001
  ∧ zero_zero_law 0 == 0.9801
  ∧ zero_zero_law 1 == 0.0198
  ∧ zero_zero_law 2 + zero_zero_law 0 + zero_zero_law 1 == 1.
Proof.
  intros H Hf Hm Hd Hfa Hmo. split; [|by repeat split].
  rewrite (person_factors_case _ _ _ _ _ _ _ _ H Hf Hm Hd), Hfa, Hmo.
  eexists. split; [reflexivity|]. simpl.
  by destruct (copies (name r) og tg) as [|[|[|?]]].
Qed.

(** C6. For a child both of whose parents have exactly 1 copy, the gene
    factor is 0.25 when the child is in [two_genes], 0.25 when the child
    has 0 copies and 0.5 when the child is in [one_gene]: one half per
    parent, with no mutation term.  The child's bucket is read at
    [name r]; [one_gene] and [two_genes] are disjoint. *)
Theorem one_copy_parents_factors people person r fa mo og tg ht :
  getitem people person = Ok r →
  father r = Some fa → mother r = Some mo →
  og ## tg →
  copies fa og tg = 1%nat → copies mo og tg = 1%nat →
  ∃ g, person_factors people person og tg ht
       = Ok [g; PROBS.trait (copies (name r) og tg) (bool_decide (name r ∈ ht))]
       ∧ g == one_one_law (copies (name r) og tg).
Proof.
  intros H Hf Hm Hd Hfa Hmo.
  rewrite (person_factors_case _ _ _ _ _ _ _ _ H Hf Hm Hd), Hfa, Hmo.
  eexists. split; [reflexivity|]. simpl.
  by destruct (copies (name r) og tg) as [|[|[|?]]].
Qed.

(** C7. For a founder, the single factor multiplied into the joint
    probability is the prior of the person's bucket (0.96, 0.03 or 0.01 for
    0, 1 or 2 copies) times the trait conditional of that bucket at the
    person's membership in [have_trait]; [one_gene] and [two_genes] are
    disjoint. *)
Theorem founder_factor people person r og tg ht :
  getitem people person = Ok r →
  father r = None → mother r = None →
  og ## tg →
  person_factors people person og tg ht
  = Ok [gene_prob person og tg ht]
  ∧ gene_prob person og tg ht
    = PROBS.gene (copies person og tg)
      * PROBS.trait (copies person og tg) (bool_decide (person ∈ ht))
  ∧ PROBS.gene 0 = 0.96 ∧ PROBS.gene 1 = 0.03 ∧ PROBS.gene 2 = 0.01.
Proof.
  intros H Hf Hm Hd. split; [by eapply person_factors_founder|].
  split; [|done].
  unfold gene_prob, copies.
  repeat case_bool_decide; try done; set_solver.
Qed.

Lemma zero_copy_parents_factors_witness :
  let og := Samples.nobody in
  let tg := Samples.only "Harry" in
  let ht := Samples.only "Harry" in
  (∃ g, person_factors Samples.family "Harry" og tg ht
        = Ok [g; PROBS.trait (copies "Harry" og tg) (bool_decide ("Harry" ∈ ht))]
        ∧ g == zero_zero_law (copies "Harry" og tg))
  ∧ zero_zero_law 2 == 0.0001
  ∧ zero_zero_law 0 == 0.9801
  ∧ zero_zero_law 1 == 0.0198
  ∧ zero_zero_law 2 + zero_zero_law 0 + zero_zero_law 1 == 1.
Proof.
  apply (zero_copy_parents_factors Samples.family "Harry" Samples.harry
           "James" "Lily" Samples.nobody (Samples.only "Harry") (Samples.only "Harry"));
    [reflexivity | reflexivity | reflexivity
    | apply (bool_decide_unpack _); vm_compute; exact I
    | vm_compute; reflexivity | vm_compute; reflexivity ].
Defined.

Lemma one_copy_parents_factors_witness :
  let og := Samples.both "James" "Lily" in
  let tg := Samples.only "Harry" in
  let ht := Samples.only "Harry" in
  ∃ g, person_factors Samples.family "Harry" og tg ht
       = Ok [g; PROBS.trait (copies "Harry" og tg) (bool_decide ("Harry" ∈ ht))]
       ∧ g == one_one_law (copies "Harry" og tg).
Proof.
  apply (one_copy_parents_factors Samples.family "Harry" Samples.harry
           "James" "Lily" (Samples.both "James" "Lily") (Samples.only "Harry")
           (Samples.only "Harry"));
    [reflexivity | reflexivity | reflexivity
    | apply (bool_decide_unpack _); vm_compute; exact I
    | vm_compute; reflexivity | vm_compute; reflexivity ].
Defined.

Lemma founder_factor_witness :
  let og := Samples.only "James" in
  let tg := Samples.only "Lily" in
  let ht := Samples.nobody in
  person_factors Samples.family "James" og tg ht
  = Ok [gene_prob "James" og tg ht]
  ∧ gene_prob "James" og tg ht
    = PROBS.gene (copies "James" og tg)
      * PROBS.trait (copies "James" og tg) (bool_decide ("James" ∈ ht))
  ∧ PROBS.gene 0 = 0.96 ∧ PROBS.gene 1 = 0.03 ∧ PROBS.gene 2 = 0.01.
Proof.
  apply (founder_factor Samples.family "James" Samples.james
           (Samples.only "James") (Samples.only "Lily") Samples.nobody);
    [reflexivity | reflexivity | reflexivity
    | apply (bool_decide_unpack _); vm_compute; exact I ].
Defined.

(** ** The block for one 2-copy parent and one 0-copy parent *)

(** For a child in [one_gene] with one parent at 2 copies and the other at
    0, the gene factor the code multiplies in is [(1 - m * 1 - m) + m * m]:
    the subtraction is not parenthesised as [(1 - m) * (1 - m)]. *)
Lemma two_zero_parents_one_copy people person r fa mo og tg ht :
  getitem people person = Ok r →
  father r = Some fa → mother r = Some mo →
  og ## tg →
  case_of (copies fa og tg) (copies mo og tg) = 5%Z →
  name r ∈ og →
  let m := PROBS.mutation in
  person_factors people person og tg ht
  = Ok [ (1 - m * 1 - m) + m * m; PROBS.trait 1 (bool_decide (name r ∈ ht)) ].
Proof.
  intros H Hf Hm Hd Hc Hn m.
  rewrite (person_factors_case _ _ _ _ _ _ _ _ H Hf Hm Hd), Hc.
  assert (copies (name r) og tg = 1%nat) as ->; [|done].
  unfold copies. rewrite (bool_decide_eq_true_2 _ Hn).
  case_bool_decide; [set_solver|done].
Qed.

(** C3. Harry is in [one_gene], his father James has 2 copies and his
    mother Lily has 0: the gene factor multiplied in is 0.9801, which is not
    the closed form [(1 - m) * (1 - m) + m * m = 0.9802]. *)
Theorem two_zero_parents_one_copy_factor :
  ∃ g t, person_factors Samples.family "Harry"
           (Samples.only "Harry") (Samples.only "James") (Samples.only "Harry")
         = Ok [g; t]
         ∧ g == 0.9801
         ∧ two_zero_one_copy_law == 0.9802
         ∧ ¬ g == two_zero_one_copy_law.
Proof.
  eexists _, _. split.
  - apply (two_zero_parents_one_copy Samples.family "Harry" Samples.harry
             "James" "Lily" (Samples.only "Harry") (Samples.only "James")
             (Samples.only "Harry"));
      [reflexivity | reflexivity | reflexivity
      | apply (bool_decide_unpack _); vm_compute; exact I
      | vm_compute; reflexivity
      | apply (bool_decide_unpack _); vm_compute; exact I ].
  - split; [reflexivity|]. split; [reflexivity|]. intros E. discriminate E.
Qed.

(** ** Bounds on the joint probability *)

Lemma unit_interval_mult a b : unit_interval a → unit_interval b → unit_interval (a * b).
Proof. unfold unit_interval. intros [? ?] [? ?]. split; nra. Qed.

Lemma unit_interval_fold fs joint_p :
  unit_interval joint_p → Forall unit_interval fs →
  unit_interval (fold_left Qmult fs joint_p).
Proof.
  intros Hp Hfs. revert joint_p Hp.
  induction Hfs as [|f fs Hf _ IH]; intros joint_p Hp; simpl; [done|].
  apply IH. by apply unit_interval_mult.
Qed.

Ltac unit_constant := unfold unit_interval; split; apply Qle_bool_imp_le; reflexivity.

Lemma unit_interval_trait k b : unit_interval (PROBS.trait k b).
Proof. destruct k as [|[|[|?]]], b; unit_constant. Qed.

Lemma unit_interval_gene_prob person og tg ht : unit_interval (gene_prob person og tg ht).
Proof. unfold gene_prob. repeat case_bool_decide; unit_constant. Qed.

Lemma unit_interval_pick k g1 g2 g0 :
  unit_interval g1 → unit_interval g2 → unit_interval g0 →
  unit_interval (pick k g1 g2 g0).
Proof. by destruct k as [|[|[|?]]]. Qed.

(** Every person that is a key of [people] contributes factors within
    [0, 1], whatever the three sets are; no lookup raises. *)
Lemma person_factors_unit people person og tg ht :
  person ∈ keys people →
  ∃ fs, person_factors people person og tg ht = Ok fs ∧ Forall unit_interval fs.
Proof.
  intros Hk. destruct (getitem_key _ _ Hk) as [r H].
  destruct (bool_decide (father r = None) && bool_decide (mother r = None)) eqn:Hnf.
  - exists [gene_prob person og tg ht]. split.
    + unfold person_factors. by rewrite (check_parents_eq _ _ _ H), Hnf.
    + apply Forall_singleton, unit_interval_gene_prob.
  - pose proof (parents_classify _ _ og tg _ H) as Hc.
    destruct (classify_total (py_in (father r) og) (py_in (father r) tg)
                (py_in (mother r) og) (py_in (mother r) tg)) as (c & Ec & Hr).
    rewrite Ec in Hc.
    eexists. split; [by apply (person_factors_child _ _ _ _ _ _ _ H Hnf Hc)|].
    rewrite trait_given_eq.
    assert (c = 0 ∨ c = 1 ∨ c = 2 ∨ c = 3 ∨ c = 4 ∨ c = 5)%Z
      as [->|[->|[->|[->|[->| ->]]]]] by lia; simpl;
      (apply Forall_cons_2;
       [apply unit_interval_pick; unit_constant
       |apply Forall_singleton, unit_interval_trait]).
Qed.

Lemma joint_probability_loop_unit people og tg ht persons joint_p :
  persons ⊆ keys people → unit_interval joint_p →
  ∃ p, for_each
         (fun joint_p person =>
            fs ← person_factors people person og tg ht;
            Ok (fold_left Qmult fs joint_p))
         persons joint_p = Ok p
       ∧ unit_interval p.
Proof.
  revert joint_p. induction persons as [|person rest IH]; intros joint_p Hs Hp; simpl.
  - eauto.
  - destruct (person_factors_unit people person og tg ht) as (fs & -> & Hfs).
    { apply Hs, list_elem_of_here. }
    simpl. apply IH.
    + intros x Hx. apply Hs. by apply list_elem_of_further.
    + by apply unit_interval_fold.
Qed.

(** [joint_probability] returns a number within [0, 1] on every input. *)
Lemma joint_probability_unit people og tg ht :
  ∃ p, joint_probability people og tg ht = Ok p ∧ 0 <= p <= 1.
Proof.
  apply joint_probability_loop_unit; [done|]. unit_constant.
Qed.

(** C8. For one_gene and two_genes disjoint subsets of the population, the
    value [joint_probability] returns is neither negative nor above 1. *)
Theorem joint_probability_bounds people og tg ht :
  og ## tg →
  og ⊆ list_to_set (keys people) → tg ⊆ list_to_set (keys people) →
  ∃ p, joint_probability people og tg ht = Ok p ∧ 0 <= p <= 1.
Proof. intros _ _ _. apply joint_probability_unit. Qed.

Lemma joint_probability_bounds_witness :
  ∃ p, joint_probability Samples.family
         (Samples.only "Harry") (Samples.only "James") (Samples.only "Harry") = Ok p
       ∧ 0 <= p <= 1.
Proof.
  apply (joint_probability_bounds Samples.family
           (Samples.only "Harry") (Samples.only "James") (Samples.only "Harry"));
    apply (bool_decide_unpack _); vm_compute; exact I.
Defined.

(** ** [powerset] *)

Lemma combinations_sublist {A : Type} (l c : list A) (r : nat) :
  c ∈ combinations l r → c `sublist_of` l.
Proof.
  revert c r. induction l as [|x l IH]; intros c [|r]; simpl.
  - intros ->%list_elem_of_singleton. constructor.
  - intros H. by apply elem_of_nil in H.
  - intros ->%list_elem_of_singleton. apply sublist_nil_l.
  - intros [H|H]%elem_of_app.
    + apply list_elem_of_fmap in H as (c' & -> & H). constructor. eauto.
    + constructor. eauto.
Qed.

Lemma sublist_combinations {A : Type} (l c : list A) :
  c `sublist_of` l → c ∈ combinations l (length c).
Proof.
  induction 1 as [|x c l _ IH|x c l _ IH]; simpl.
  - apply list_elem_of_here.
  - apply elem_of_app. left. by apply list_elem_of_fmap_2.
  - destruct c as [|y c]; simpl in *.
    + apply list_elem_of_here.
    + apply elem_of_app. by right.
Qed.

Lemma elem_of_powerset (s x : gset string) : x ∈ powerset s ↔ x ⊆ s.
Proof.
  unfold powerset. rewrite list_elem_of_fmap. split.
  - intros (c & -> & Hc). apply list_elem_of_bind in Hc as (r & Hc & _).
    apply combinations_sublist, sublist_subseteq in Hc.
    intros y Hy%elem_of_list_to_set. apply elem_of_elements. auto.
  - intros Hx. exists (filter (λ y, y ∈ x) (elements s)). split.
    + apply set_eq. intros y.
      rewrite elem_of_list_to_set, list_elem_of_filter, elem_of_elements.
      split; [|by intros [? _]]. intros Hy. split; [done|]. by apply Hx.
    + apply list_elem_of_bind. eexists. split.
      * apply sublist_combinations, sublist_filter.
      * apply elem_of_seq. split; [lia|]. simpl.
        pose proof (sublist_length _ _ (sublist_filter (λ y, y ∈ x) (elements s))).
        lia.
Qed.

Lemma powerset_head (s : gset string) : ∃ rest, powerset s = ∅ :: rest.
Proof. unfold powerset. destruct (elements s); eexists; reflexivity. Qed.

(** ** The evidence filter *)

Lemma py_any_false {A : Type} (f : A → result bool) (xs : list A) :
  py_any f xs = Ok false ↔ ∀ x, x ∈ xs → f x = Ok false.
Proof.
  induction xs as [|x xs IH]; simpl.
  - split; [|done]. intros _ x Hx. by apply elem_of_nil in Hx.
  - split.
    + intros H y Hy. destruct (f x) as [[|]|e] eqn:E; simpl in H; try done.
      apply elem_of_cons in Hy as [->|Hy]; [done|]. by apply IH.
    + intros H. rewrite (H x (list_elem_of_here _ _)). simpl.
      apply IH. intros y Hy. by apply H, list_elem_of_further.
Qed.

Lemma py_any_total {A : Type} (f : A → result bool) (xs : list A) :
  (∀ x, x ∈ xs → ∃ b, f x = Ok b) → ∃ b, py_any f xs = Ok b.
Proof.
  induction xs as [|x xs IH]; intros H; simpl; [eauto|].
  destruct (H x (list_elem_of_here _ _)) as [[|] ->]; simpl; [eauto|].
  apply IH. intros y Hy. by apply H, list_elem_of_further.
Qed.

Lemma violates_total people ht person :
  person ∈ keys people → ∃ b, violates people ht person = Ok b.
Proof.
  intros [r H]%getitem_key. unfold violates. rewrite H. simpl. eauto.
Qed.

Lemma fails_evidence_total people ht :
  ∃ b, fails_evidence people (list_to_set (keys people)) ht = Ok b.
Proof.
  apply py_any_total. intros person Hp.
  apply violates_total.
  by apply elem_of_elements, elem_of_list_to_set in Hp.
Qed.

Lemma fails_evidence_false people ht :
  fails_evidence people (list_to_set (keys people)) ht = Ok false →
  respects_evidence people ht.
Proof.
  intros H person r b Hr Ht.
  assert (violates people ht person = Ok false) as Hv.
  { eapply py_any_false; [exact H|].
    apply elem_of_elements, elem_of_list_to_set. by eapply getitem_Ok. }
  unfold violates in Hv. rewrite Hr in Hv. simpl in Hv. rewrite Ht in Hv.
  destruct b, (bool_decide (person ∈ ht)); simpl in Hv; congruence.
Qed.

Lemma observed_passes people :
  fails_evidence people (list_to_set (keys people)) (observed people) = Ok false.
Proof.
  apply py_any_false. intros person Hp.
  apply elem_of_elements, elem_of_list_to_set in Hp.
  destruct (getitem_key _ _ Hp) as [r H].
  unfold violates. rewrite H. simpl. f_equal.
  destruct (trait r) as [t|] eqn:Et; [|done].
  unfold getitem in H. destruct (find_key people person) as [r'|] eqn:Ef; [|done].
  injection H as ->.
  unfold observed. case_bool_decide as Hin.
  - apply elem_of_list_to_set, list_elem_of_filter in Hin as [Ht _].
    rewrite Ef in Ht. simpl in Ht. rewrite Et in Ht. by injection Ht as ->.
  - destruct t; [|done]. exfalso. apply Hin.
    apply elem_of_list_to_set, list_elem_of_filter. split; [|done].
    by rewrite Ef.
Qed.

Lemma observed_in_powerset people :
  observed people ∈ powerset (list_to_set (keys people)).
Proof.
  apply elem_of_powerset. intros person.
  unfold observed. rewrite !elem_of_list_to_set, list_elem_of_filter. by intros [_ ?].
Qed.

(** ** Traces of the driver *)

Lemma traced_bind_trace {A B : Type} (r : traced A) (f : A → traced B) :
  (r ≫= f).1 = r.1 ++ match r.2 with Ok a => (f a).1 | Raise _ => [] end.
Proof.
  destruct r as [t [a|e]]; simpl.
  - by destruct (f a).
  - by rewrite app_nil_r.
Qed.

Lemma lift_bind {A B : Type} (a : A) (f : A → traced B) : lift (Ok a) ≫= f = f a.
Proof. unfold lift. simpl. by destruct (f a). Qed.

Lemma for_each_traced_Forall {A S : Type} (P : triple → Prop)
    (body : S → A → traced S) (xs : list A) (acc : S) :
  (∀ acc x, x ∈ xs → Forall P (body acc x).1) →
  Forall P (for_each_traced body xs acc).1.
Proof.
  revert acc. induction xs as [|x xs IH]; intros acc H; simpl; [constructor|].
  rewrite traced_bind_trace. apply Forall_app. split.
  - apply H, list_elem_of_here.
  - destruct (body acc x).2; [|constructor].
    apply IH. intros acc' y Hy. by apply H, list_elem_of_further.
Qed.

(** The first iteration that leaves a trace decides the head of the trace
    of a loop: the iterations before it are skipped without a call. *)
Lemma for_each_traced_head {A S : Type} (body : S → A → traced S)
    (skip : A → bool) (hd : A → triple) (xs : list A) (acc : S) :
  (∀ acc x, skip x = true → body acc x = ([], Ok acc)) →
  (∀ acc x, skip x = false → ∃ rest, (body acc x).1 = hd x :: rest) →
  (∃ x, x ∈ xs ∧ skip x = false) →
  ∃ x rest, x ∈ xs ∧ skip x = false
            ∧ (for_each_traced body xs acc).1 = hd x :: rest.
Proof.
  intros Hskip Hhd. revert acc.
  induction xs as [|x xs IH]; intros acc (y & Hy & Hny).
  - by apply elem_of_nil in Hy.
  - simpl. rewrite traced_bind_trace. destruct (skip x) eqn:Ex.
    + rewrite (Hskip _ _ Ex). simpl.
      apply elem_of_cons in Hy as [->|Hy]; [congruence|].
      destruct (IH acc) as (z & rest & Hz & Hnz & E); [eauto|].
      exists z, rest. split; [by apply list_elem_of_further|]. done.
    + destruct (Hhd acc _ Ex) as [rest ->].
      eexists x, _. split; [apply list_elem_of_here|]. split; [done|].
      reflexivity.
Qed.

Section DriverTraces.

Variable update_binding :
  pydict → gset string → gset string → gset string → Q → result pydict.

(** One evaluation: the innermost loop body calls [joint_probability]
    once, and [update] afterwards. *)
Lemma evaluation_trace people og tg ht probabilities :
  (called (og, tg, ht);;
   p ← lift (joint_probability people og tg ht);
   lift (update_binding probabilities og tg ht p)).1 = [(og, tg, ht)].
Proof.
  destruct (joint_probability people og tg ht) as [p|e]; simpl; [|done].
  by destruct (update_binding probabilities og tg ht p).
Qed.

Lemma main_with_trace_Forall (P : triple → Prop) people :
  (∀ og tg ht,
      ht ∈ powerset (list_to_set (keys people)) →
      fails_evidence people (list_to_set (keys people)) ht = Ok false →
      og ∈ powerset (list_to_set (keys people)) →
      tg ∈ powerset (list_to_set (keys people) ∖ og) →
      P (og, tg, ht)) →
  Forall P (main_with update_binding people).1.
Proof.
  intros HP. unfold main_with. rewrite traced_bind_trace.
  apply Forall_app. split.
  - apply for_each_traced_Forall. intros acc ht Hht.
    rewrite traced_bind_trace.
    destruct (fails_evidence people _ ht) as [[|]|e] eqn:Ef; simpl;
      try constructor.
    apply for_each_traced_Forall. intros acc' og Hog.
    apply for_each_traced_Forall. intros acc'' tg Htg.
    pose proof (evaluation_trace people og tg ht acc'') as E.
    simpl in E |- *. rewrite E. apply Forall_singleton. by apply HP.
  - destruct (for_each_traced _ _ _).2; simpl; constructor.
Qed.

Lemma main_with_trace_head people :
  ∃ ht rest,
    (main_with update_binding people).1 = (∅, ∅, ht) :: rest
    ∧ respects_evidence people ht.
Proof.
  unfold main_with. rewrite traced_bind_trace.
  set (names := list_to_set (keys people) : gset string).
  set (inner := λ ht (probabilities : pydict) (one_gene : gset string),
         for_each_traced
           (λ probabilities two_genes,
              called (one_gene, two_genes, ht);;
              p ← lift (joint_probability people one_gene two_genes ht);
              lift (update_binding probabilities one_gene two_genes ht p))
           (powerset (names ∖ one_gene)) probabilities).
  edestruct (for_each_traced_head
    (λ probabilities ht,
       fails ← lift (fails_evidence people names ht);
       if fails : bool then mret probabilities
       else for_each_traced (inner ht) (powerset names) probabilities)
    (λ ht, bool_decide (fails_evidence people names ht ≠ Ok false))
    (λ ht, (∅, ∅, ht))
    (powerset names) (initial_probabilities people))
    as (ht & rest & _ & Hht & E).
  - intros acc ht Hs. apply bool_decide_eq_true in Hs.
    destruct (fails_evidence_total people ht) as [[|] Ef]; fold names in Ef.
    + by rewrite Ef.
    + done.
  - intros acc ht Hs. apply bool_decide_eq_false in Hs.
    apply dec_stable in Hs. rewrite Hs, lift_bind.
    destruct (powerset_head names) as [rest1 ->].
    cbn [for_each_traced]. rewrite traced_bind_trace. unfold inner at 1.
    destruct (powerset_head (names ∖ ∅)) as [rest2 ->].
    cbn [for_each_traced]. rewrite traced_bind_trace, evaluation_trace.
    simpl. eauto.
  - exists (observed people). split; [apply observed_in_powerset|].
    apply bool_decide_eq_false. intros H. apply H, observed_passes.
  - apply bool_decide_eq_false in Hht. apply dec_stable in Hht.
    exists ht. eexists. split.
    + subst inner names. cbv beta in E. rewrite E. reflexivity.
    + by apply fails_evidence_false.
Qed.

End DriverTraces.

(** ** The enumeration driver *)

(** C4. Every triple at which the driver evaluates [joint_probability],
    whatever [update] does with the result, has [one_gene] and [two_genes]
    disjoint, [two_genes] drawn from the population minus [one_gene], and a
    [have_trait] that agrees with every known trait: a conflicting
    [have_trait] is skipped without evaluation. *)
Theorem evaluated_triples_well_formed update_binding people og tg ht :
  (og, tg, ht) ∈ (main_with update_binding people).1 →
  og ## tg
  ∧ tg ⊆ list_to_set (keys people) ∖ og
  ∧ respects_evidence people ht.
Proof.
  revert og tg ht.
  assert (Forall (λ t : triple,
            t.1.1 ## t.1.2
            ∧ t.1.2 ⊆ list_to_set (keys people) ∖ t.1.1
            ∧ respects_evidence people t.2)
            (main_with update_binding people).1) as H.
  { apply main_with_trace_Forall. intros og tg ht _ Hf _ Htg. simpl.
    apply elem_of_powerset in Htg.
    split; [|split; [done|by apply fails_evidence_false]].
    intros x Hog Hx. apply Htg, elem_of_difference in Hx as [_ Hx]. done. }
  intros og tg ht Hin. rewrite Forall_forall in H. apply (H _ Hin).
Qed.

Lemma evaluated_triples_well_formed_witness :
  Samples.nobody ## Samples.nobody
  ∧ Samples.nobody ⊆ list_to_set (keys Samples.family) ∖ Samples.nobody
  ∧ respects_evidence Samples.family (Samples.only "Harry").
Proof.
  apply (evaluated_triples_well_formed update Samples.family
           Samples.nobody Samples.nobody (Samples.only "Harry")).
  apply (bool_decide_unpack _). vm_compute. exact I.
Defined.

(** C9, as the code has it. A malformed pedigree is not rejected: the
    driver starts the enumeration and evaluates [joint_probability] at a
    first triple with [one_gene] and [two_genes] empty, and every evaluation
    of [joint_probability] returns a probability without raising.  At every
    triple the driver evaluates, a person with at least one parent recorded
    is not a founder for [check_parents], and [zero_copies] holds of a
    parent that is blank or is no row of the pedigree. *)
Theorem malformed_pedigree_is_enumerated update_binding people :
  malformed people = true →
  (∃ ht rest, (main_with update_binding people).1 = (∅, ∅, ht) :: rest)
  ∧ (∀ og tg ht, ∃ p, joint_probability people og tg ht = Ok p ∧ 0 <= p <= 1)
  ∧ (∀ og tg ht person r,
       (og, tg, ht) ∈ (main_with update_binding people).1 →
       getitem people person = Ok r →
       (father r ≠ None ∨ mother r ≠ None → check_parents people person = Ok false)
       ∧ (∀ parent, absent_parent people r parent →
            zero_copies people parent person og tg = Ok true)).
Proof.
  intros _. split; [|split].
  - destruct (main_with_trace_head update_binding people) as (ht & rest & E & _).
    eauto.
  - intros og tg ht. apply joint_probability_unit.
  - intros og tg ht person r Hin H.
    assert (og ⊆ list_to_set (keys people) ∧ tg ⊆ list_to_set (keys people))
      as [Hog Htg].
    { pose proof (main_with_trace_Forall update_binding
        (λ t : triple, t.1.1 ⊆ list_to_set (keys people)
                       ∧ t.1.2 ⊆ list_to_set (keys people)) people) as HF.
      rewrite Forall_forall in HF. apply (HF) in Hin; [exact Hin|].
      intros og' tg' ht' _ _ Hog' Htg'. simpl.
      apply elem_of_powerset in Hog', Htg'. split; [done|].
      intros x Hx. by apply Htg', elem_of_difference in Hx as [Hx _]. }
    split.
    + intros Hrec. rewrite (check_parents_eq _ _ _ H).
      destruct (father r), (mother r); try done. by destruct Hrec.
    + intros parent Habs. rewrite (zero_copies_eq _ _ _ _ _ _ H).
      unfold absent_parent in Habs.
      destruct (get_parent r parent) as [n|]; simpl; [|done].
      assert (n ∉ og) as Ho.
      { intros Hn. by apply Habs, (elem_of_list_to_set (C:=gset string)), Hog. }
      assert (n ∉ tg) as Ht.
      { intros Hn. by apply Habs, (elem_of_list_to_set (C:=gset string)), Htg. }
      by rewrite (bool_decide_eq_false_2 _ Ho), (bool_decide_eq_false_2 _ Ht).
Qed.

Lemma malformed_pedigree_is_enumerated_witness :
  (∃ ht rest, (main_with update Samples.dangling).1 = (∅, ∅, ht) :: rest)
  ∧ (∀ og tg ht, ∃ p,
        joint_probability Samples.dangling og tg ht = Ok p ∧ 0 <= p <= 1)
  ∧ (∀ og tg ht person r,
       (og, tg, ht) ∈ (main_with update Samples.dangling).1 →
       getitem Samples.dangling person = Ok r →
       (father r ≠ None ∨ mother r ≠ None
        → check_parents Samples.dangling person = Ok false)
       ∧ (∀ parent, absent_parent Samples.dangling r parent →
            zero_copies Samples.dangling parent person og tg = Ok true)).
Proof.
  apply (malformed_pedigree_is_enumerated update Samples.dangling).
  vm_compute. reflexivity.
Defined.

(** C9, as stated, fails. Harry's parents are not rows of the pedigree,
    and yet [main] does not stop before the enumeration: it evaluates
    [joint_probability] at the first triple, which returns 0.970299, and
    the only exception is the one [update] raises afterwards.  The same
    holds for a row with a mother and no father. *)
Lemma malformed_pedigree_not_rejected :
  malformed Samples.dangling = true
  ∧ malformed Samples.one_parent = true
  ∧ main Samples.dangling
    = ([(Samples.nobody, Samples.nobody, Samples.nobody)], Raise NotImplementedError)
  ∧ main Samples.one_parent
    = ([(Samples.nobody, Samples.nobody, Samples.nobody)], Raise NotImplementedError)
  ∧ (∃ p, joint_probability Samples.dangling Samples.nobody Samples.nobody
            Samples.nobody = Ok p ∧ p == 0.970299)
  ∧ ¬ (∀ people, malformed people = true → ∃ e, main people = ([], Raise e)).
Proof.
  split; [by vm_compute|]. split; [by vm_compute|].
  split; [by vm_compute|]. split; [by vm_compute|].
  split.
  - eexists. split; [vm_compute; reflexivity|]. reflexivity.
  - intros H. destruct (H Samples.dangling) as [e He]; [by vm_compute|].
    vm_compute in He. discriminate He.
Qed.

(** ** The accumulators *)

(** A loop whose first iteration that is not skipped raises ends there. *)
Lemma for_each_traced_raise {A S : Type} (body : S → A → traced S)
    (skip : A → bool) (tr : A → list triple) (e : exn) (xs : list A) (acc : S) :
  (∀ acc x, skip x = true → body acc x = ([], Ok acc)) →
  (∀ acc x, skip x = false → body acc x = (tr x, Raise e)) →
  (∃ x, x ∈ xs ∧ skip x = false) →
  ∃ x, x ∈ xs ∧ skip x = false ∧ for_each_traced body xs acc = (tr x, Raise e).
Proof.
  intros Hskip Hraise. revert acc.
  induction xs as [|x xs IH]; intros acc (y & Hy & Hny).
  - by apply elem_of_nil in Hy.
  - cbn [for_each_traced]. destruct (skip x) eqn:Ex.
    + rewrite (Hskip _ _ Ex). change ([], Ok acc) with (lift (Ok acc)).
      rewrite lift_bind.
      apply elem_of_cons in Hy as [->|Hy]; [congruence|].
      destruct (IH acc) as (z & Hz & Hnz & E); [eauto|].
      exists z. split; [by apply list_elem_of_further|]. done.
    + rewrite (Hraise _ _ Ex). exists x.
      split; [apply list_elem_of_here|]. done.
Qed.

(** Every run of [main] evaluates [joint_probability] once, at the first
    triple that passes the evidence filter, and ends in the exception
    [update] raises: no bucket is ever incremented and [normalize] is not
    reached. *)
Lemma main_stops_at_update people :
  ∃ ht, main people = ([(∅, ∅, ht)], Raise NotImplementedError)
        ∧ respects_evidence people ht.
Proof.
  unfold main, main_with.
  set (names := list_to_set (keys people) : gset string).
  set (inner := λ ht (probabilities : pydict) (one_gene : gset string),
         for_each_traced
           (λ probabilities two_genes,
              called (one_gene, two_genes, ht);;
              p ← lift (joint_probability people one_gene two_genes ht);
              lift (update probabilities one_gene two_genes ht p))
           (powerset (names ∖ one_gene)) probabilities).
  edestruct (for_each_traced_raise
    (λ probabilities ht,
       fails ← lift (fails_evidence people names ht);
       if fails : bool then mret probabilities
       else for_each_traced (inner ht) (powerset names) probabilities)
    (λ ht, bool_decide (fails_evidence people names ht ≠ Ok false))
    (λ ht, [((∅, ∅, ht) : triple)]) NotImplementedError
    (powerset names) (initial_probabilities people))
    as (ht & _ & Hht & E).
  - intros acc ht Hs. apply bool_decide_eq_true in Hs.
    destruct (fails_evidence_total people ht) as [[|] Ef]; fold names in Ef.
    + by rewrite Ef.
    + done.
  - intros acc ht Hs. apply bool_decide_eq_false in Hs.
    apply dec_stable in Hs. rewrite Hs, lift_bind.
    destruct (powerset_head names) as [rest1 ->].
    cbn [for_each_traced].
    assert (inner ht acc ∅ = ([(∅, ∅, ht)], Raise NotImplementedError)) as ->;
      [|reflexivity].
    unfold inner. destruct (powerset_head (names ∖ ∅)) as [rest2 ->].
    cbn [for_each_traced].
    destruct (joint_probability_unit people ∅ ∅ ht) as (p & -> & _).
    reflexivity.
  - exists (observed people). split; [apply observed_in_powerset|].
    apply bool_decide_eq_false. intros H. apply H, observed_passes.
  - apply bool_decide_eq_false in Hht. apply dec_stable in Hht.
    exists ht. split; [|by apply fails_evidence_false].
    subst inner names. cbv beta in E. rewrite E. reflexivity.
Qed.

(** C1. [update] adds nothing to any bucket: every call raises
    [NotImplementedError]; so does every run of [main], at the first
    triple it evaluates. *)
Theorem update_raises :
  (∀ probabilities og tg ht p,
      update probabilities og tg ht p = Raise NotImplementedError)
  ∧ (∀ people, ∃ ht, main people = ([(∅, ∅, ht)], Raise NotImplementedError)).
Proof.
  split; [done|].
  intros people. destruct (main_stops_at_update people) as (ht & E & _). eauto.
Qed.

(** C2. [normalize] sums the values of [probabilities], which are the
    per-person dicts: on any non-empty [probabilities] of the shape [main]
    builds it raises [TypeError] at the first addition and rescales
    nothing; on the empty dict it divides by zero. *)
Theorem normalize_rejects_distributions :
  (∀ person distributions rest,
      normalize ((person, VDict distributions) :: rest) = Raise TypeError)
  ∧ (∀ people, people ≠ [] →
       normalize (initial_probabilities people) = Raise TypeError)
  ∧ normalize [] = Raise ZeroDivisionError.
Proof.
  split; [done|]. split; [|done].
  intros [|[k r] rest] Hne; done.
Qed.

(** * Further properties of the code *)

(** ** [powerset] lists every subset once *)

Lemma combinations_length {A : Type} (l c : list A) (r : nat) :
  c ∈ combinations l r → length c = r.
Proof.
  revert c r. induction l as [|x l IH]; intros c [|r]; simpl.
  - by intros ->%list_elem_of_singleton.
  - intros H. by apply elem_of_nil in H.
  - by intros ->%list_elem_of_singleton.
  - intros [H|H]%elem_of_app.
    + apply list_elem_of_fmap in H as (c' & -> & H). simpl. f_equal. eauto.
    + eauto.
Qed.

Lemma combinations_NoDup {A : Type} (l : list A) (r : nat) :
  NoDup l → NoDup (combinations l r).
Proof.
  intros Hl. revert r. induction Hl as [|x l Hx _ IH]; intros [|r]; simpl.
  - apply NoDup_singleton.
  - constructor.
  - apply NoDup_singleton.
  - apply NoDup_app. split; [|split].
    + apply NoDup_fmap_2; [|apply IH]. intros c1 c2 E. by injection E.
    + intros c Hc Hc'. apply list_elem_of_fmap in Hc as (c' & -> & _).
      apply combinations_sublist, sublist_subseteq in Hc'.
      apply Hx, Hc', list_elem_of_here.
    + apply IH.
Qed.

Lemma filter_ext_in {A : Type} (P1 P2 : A → Prop)
    `{!∀ x, Decision (P1 x), !∀ x, Decision (P2 x)} (l : list A) :
  (∀ x, x ∈ l → P1 x ↔ P2 x) → filter P1 l = filter P2 l.
Proof.
  induction l as [|a l IH]; intros Hext; [done|].
  assert (filter P1 l = filter P2 l) as E.
  { apply IH. intros x Hx. by apply Hext, list_elem_of_further. }
  pose proof (Hext a (list_elem_of_here _ _)) as Ha.
  destruct (decide (P1 a)).
  - rewrite !filter_cons_True by tauto. by rewrite E.
  - rewrite !filter_cons_False by tauto. done.
Qed.

(** A sublist of a list without duplicates is determined by its elements. *)
Lemma sublist_as_filter {A : Type} `{EqDecision A} (l c : list A) :
  NoDup l → c `sublist_of` l → c = filter (λ y, y ∈ c) l.
Proof.
  intros Hl Hc. induction Hc as [|x c l Hc IH|x c l Hc IH].
  - done.
  - apply NoDup_cons in Hl as [Hx Hl].
    rewrite filter_cons_True by apply list_elem_of_here. f_equal.
    rewrite (IH Hl) at 1. apply filter_ext_in. intros y Hy. split.
    + by apply list_elem_of_further.
    + intros [->|Hyc]%elem_of_cons; [done|exact Hyc].
  - apply NoDup_cons in Hl as [Hx Hl].
    rewrite filter_cons_False; [by apply IH|].
    intros Hxc. by apply Hx, (sublist_subseteq _ _ Hc).
Qed.

Lemma sublist_set_inj (l c1 c2 : list string) :
  NoDup l → c1 `sublist_of` l → c2 `sublist_of` l →
  (list_to_set c1 : gset string) = list_to_set c2 → c1 = c2.
Proof.
  intros Hl H1 H2 E.
  rewrite (sublist_as_filter l c1 Hl H1), (sublist_as_filter l c2 Hl H2).
  apply filter_ext_in. intros y _.
  by rewrite <-!(elem_of_list_to_set (C:=gset string)), E.
Qed.

Lemma powerset_NoDup (s : gset string) : NoDup (powerset s).
Proof.
  unfold powerset. apply NoDup_fmap_2_strong.
  - intros c1 c2 (r1 & H1 & _)%list_elem_of_bind (r2 & H2 & _)%list_elem_of_bind.
    apply sublist_set_inj with (elements s);
      [apply NoDup_elements|by eapply combinations_sublist..].
  - apply NoDup_bind.
    + intros r1 r2 c _ _ H1 H2.
      apply combinations_length in H1, H2. congruence.
    + intros r _. apply combinations_NoDup, NoDup_elements.
    + apply NoDup_seq.
Qed.

(** X1. [powerset s] lists the subsets of [s] and nothing else, each of
    them once. *)
Theorem powerset_lists_each_subset_once (s : gset string) :
  (∀ x, x ∈ powerset s ↔ x ⊆ s) ∧ NoDup (powerset s).
Proof.
  split; [intros x; apply elem_of_powerset|apply powerset_NoDup].
Qed.

(** The number of combinations, summed over the sizes below [m]. *)
Lemma length_bind_seq {A : Type} (f : nat → list A) (m : nat) :
  length (seq 0 m ≫= f) = sum_list_with (λ r, length (f r)) (seq 0 m).
Proof.
  induction (seq 0 m) as [|r rs IH]; csimpl; [done|].
  by rewrite length_app, IH.
Qed.

Lemma sum_seq_shift (f : nat → nat) (m : nat) :
  sum_list_with f (seq 0 (S m)) = (f 0 + sum_list_with (λ r, f (S r)) (seq 0 m))%nat.
Proof.
  simpl. f_equal. rewrite <-fmap_S_seq.
  induction (seq 0 m) as [|r rs IH]; csimpl; [done|]. by rewrite IH.
Qed.

Lemma sum_seq_plus (f g : nat → nat) (m : nat) :
  sum_list_with (λ r, f r + g r)%nat (seq 0 m)
  = (sum_list_with f (seq 0 m) + sum_list_with g (seq 0 m))%nat.
Proof. induction (seq 0 m) as [|r rs IH]; simpl; [done|]. rewrite IH. lia. Qed.

Lemma sum_seq_ext (f g : nat → nat) (l : list nat) :
  (∀ r, f r = g r) → sum_list_with f l = sum_list_with g l.
Proof. intros E. induction l as [|r rs IH]; simpl; [done|]. by rewrite E, IH. Qed.

Lemma combinations_nil {A : Type} (r : nat) :
  length (combinations (@nil A) r) = match r with O => 1 | S _ => 0 end%nat.
Proof. by destruct r. Qed.

Lemma combinations_zero {A : Type} (l : list A) : combinations l 0 = [[]].
Proof. by destruct l. Qed.

Lemma combinations_count {A : Type} (l : list A) (m : nat) :
  (length l < m)%nat →
  sum_list_with (λ r, length (combinations l r)) (seq 0 m) = (2 ^ length l)%nat.
Proof.
  revert m. induction l as [|x l IH]; intros [|m] Hm; try (simpl in Hm; lia).
  - rewrite sum_seq_shift. simpl.
    induction (seq 0 m) as [|r rs IHr]; simpl; [done|]. simpl in IHr. lia.
  - rewrite sum_seq_shift, combinations_zero. simpl length.
    rewrite (sum_seq_ext _
               (λ r, length (combinations l r) + length (combinations l (S r)))%nat).
    2:{ intros r. simpl. by rewrite length_app, length_fmap. }
    rewrite sum_seq_plus.
    simpl in Hm.
    rewrite (IH m) by lia.
    pose proof (IH (S m) ltac:(lia)) as E.
    rewrite sum_seq_shift, combinations_zero in E. simpl length in E.
    rewrite Nat.pow_succ_r'. lia.
Qed.

(** X2. [powerset s] has [2 ^ n] entries for a set of [n] names, the first
    of them the empty set. *)
Theorem powerset_length (s : gset string) :
  length (powerset s) = (2 ^ size s)%nat ∧ head (powerset s) = Some ∅.
Proof.
  split.
  - unfold powerset. rewrite length_fmap, length_bind_seq.
    apply combinations_count. lia.
  - destruct (powerset_head s) as [rest ->]. done.
Qed.

(** ** The evidence filter decides consistency *)

Lemma respects_evidence_passes people ht :
  respects_evidence people ht →
  fails_evidence people (list_to_set (keys people)) ht = Ok false.
Proof.
  intros Hr. apply py_any_false. intros person Hp.
  apply elem_of_elements, elem_of_list_to_set in Hp.
  destruct (getitem_key _ _ Hp) as [r H].
  unfold violates. rewrite H. simpl. f_equal.
  destruct (trait r) as [t|] eqn:Et; [|done].
  rewrite (Hr _ _ _ H Et). by destruct t.
Qed.

(** X3. Over the names of the pedigree [fails_evidence] never raises, and
    it answers [False] exactly for the sets [have_trait] that hold every
    person with a known trait [True] and no person with a known trait
    [False]; people whose trait is unknown are free. *)
Theorem fails_evidence_decides people ht :
  ∃ b, fails_evidence people (list_to_set (keys people)) ht = Ok b
       ∧ (b = false ↔ respects_evidence people ht).
Proof.
  destruct (fails_evidence_total people ht) as [b Hb]. exists b.
  split; [done|]. split.
  - intros ->. by apply fails_evidence_false.
  - intros Hr. rewrite (respects_evidence_passes _ _ Hr) in Hb. congruence.
Qed.

(** ** The loops visit every consistent triple once *)

Lemma for_each_traced_ok {A S : Type} (body : S → A → traced S)
    (tr : A → list triple) (xs : list A) (acc : S) :
  (∀ acc x, x ∈ xs → ∃ acc', body acc x = (tr x, Ok acc')) →
  ∃ acc', for_each_traced body xs acc = (xs ≫= tr, Ok acc').
Proof.
  revert acc. induction xs as [|x xs IH]; intros acc H; csimpl; [by eexists|].
  destruct (H acc x (list_elem_of_here _ _)) as [acc1 ->].
  destruct (IH acc1) as [acc2 E].
  { intros acc' y Hy. by apply H, list_elem_of_further. }
  exists acc2. simpl. by rewrite E.
Qed.

Section ReturningUpdate.

Variable update_binding :
  pydict → gset string → gset string → gset string → Q → result pydict.

Hypothesis update_returns :
  ∀ probabilities og tg ht p,
    ∃ probabilities', update_binding probabilities og tg ht p = Ok probabilities'.

Lemma main_with_trace people :
  (main_with update_binding people).1 = loop_triples people.
Proof.
  unfold main_with, loop_triples. rewrite traced_bind_trace.
  set (names := list_to_set (keys people) : gset string).
  edestruct (for_each_traced_ok
    (λ probabilities ht,
       fails ← lift (fails_evidence people names ht);
       if fails : bool then mret probabilities
       else
         for_each_traced
           (λ probabilities one_gene,
              for_each_traced
                (λ probabilities two_genes,
                   called (one_gene, two_genes, ht);;
                   p ← lift (joint_probability people one_gene two_genes ht);
                   lift (update_binding probabilities one_gene two_genes ht p))
                (powerset (names ∖ one_gene)) probabilities)
           (powerset names) probabilities)
    (λ ht, match fails_evidence people names ht with
           | Ok false =>
               one_gene ← powerset names;
               two_genes ← powerset (names ∖ one_gene);
               [(one_gene, two_genes, ht)]
           | _ => []
           end)
    (powerset names) (initial_probabilities people)) as [acc' E].
  - intros acc ht _.
    destruct (fails_evidence_total people ht) as [[|] Ef]; fold names in Ef;
      rewrite Ef, lift_bind; [by eexists|].
    apply for_each_traced_ok. intros acc1 og _.
    apply for_each_traced_ok. intros acc2 tg _.
    destruct (joint_probability_unit people og tg ht) as (p & -> & _).
    destruct (update_returns acc2 og tg ht p) as [acc3 E].
    exists acc3. simpl. by rewrite E.
  - rewrite E. simpl. by rewrite app_nil_r.
Qed.

End ReturningUpdate.

Lemma elem_of_loop_triples people og tg ht :
  (og, tg, ht) ∈ loop_triples people
  ↔ og ⊆ list_to_set (keys people)
    ∧ tg ⊆ list_to_set (keys people) ∖ og
    ∧ ht ⊆ list_to_set (keys people)
    ∧ respects_evidence people ht.
Proof.
  unfold loop_triples. rewrite list_elem_of_bind. split.
  - intros (ht' & Hin & Hht).
    destruct (fails_evidence people _ ht') as [[|]|e] eqn:Ef;
      try by apply elem_of_nil in Hin.
    apply list_elem_of_bind in Hin as (og' & Hin & Hog).
    apply list_elem_of_bind in Hin as (tg' & Hin & Htg).
    apply list_elem_of_singleton in Hin. injection Hin as -> -> ->.
    apply elem_of_powerset in Hht, Hog, Htg.
    by apply fails_evidence_false in Ef.
  - intros (Hog & Htg & Hht & Hr). exists ht.
    rewrite (respects_evidence_passes _ _ Hr).
    split; [|by apply elem_of_powerset].
    apply list_elem_of_bind. exists og. split; [|by apply elem_of_powerset].
    apply list_elem_of_bind. exists tg. split; [|by apply elem_of_powerset].
    apply list_elem_of_here.
Qed.

Lemma loop_triples_NoDup people : NoDup (loop_triples people).
Proof.
  unfold loop_triples. apply NoDup_bind; [| |apply powerset_NoDup].
  - intros ht1 ht2 t _ _ H1 H2.
    destruct (fails_evidence people _ ht1) as [[|]|?];
      try by apply elem_of_nil in H1.
    destruct (fails_evidence people _ ht2) as [[|]|?];
      try by apply elem_of_nil in H2.
    apply list_elem_of_bind in H1 as (og1 & H1 & _).
    apply list_elem_of_bind in H1 as (tg1 & H1 & _).
    apply list_elem_of_bind in H2 as (og2 & H2 & _).
    apply list_elem_of_bind in H2 as (tg2 & H2 & _).
    apply list_elem_of_singleton in H1, H2. congruence.
  - intros ht _. destruct (fails_evidence people _ ht) as [[|]|?];
      try constructor.
    apply NoDup_bind; [| |apply powerset_NoDup].
    + intros og1 og2 t _ _ H1 H2.
      apply list_elem_of_bind in H1 as (tg1 & H1 & _).
      apply list_elem_of_bind in H2 as (tg2 & H2 & _).
      apply list_elem_of_singleton in H1, H2. congruence.
    + intros og _. apply NoDup_bind; [| |apply powerset_NoDup].
      * intros tg1 tg2 t _ _ H1 H2.
        apply list_elem_of_singleton in H1, H2. congruence.
      * intros tg _. apply NoDup_singleton.
Qed.

(** X4. When [update] returns, the loops of [main] evaluate
    [joint_probability] at exactly the triples with [one_gene] a set of
    names, [two_genes] a set of the remaining names and [have_trait] a set
    of names that agrees with the evidence, and at none of them twice. *)
Theorem enumeration_exhaustive_once update_binding people :
  (∀ probabilities og tg ht p,
      ∃ probabilities', update_binding probabilities og tg ht p = Ok probabilities') →
  (∀ og tg ht,
      (og, tg, ht) ∈ (main_with update_binding people).1
      ↔ og ⊆ list_to_set (keys people)
        ∧ tg ⊆ list_to_set (keys people) ∖ og
        ∧ ht ⊆ list_to_set (keys people)
        ∧ respects_evidence people ht)
  ∧ NoDup (main_with update_binding people).1.
Proof.
  intros Hup. rewrite (main_with_trace _ Hup). split.
  - intros og tg ht. apply elem_of_loop_triples.
  - apply loop_triples_NoDup.
Qed.

Lemma enumeration_exhaustive_once_witness :
  let accept : pydict → gset string → gset string → gset string → Q → result pydict :=
    λ probabilities _ _ _ _, Ok probabilities in
  (∀ og tg ht,
      (og, tg, ht) ∈ (main_with accept Samples.family).1
      ↔ og ⊆ list_to_set (keys Samples.family)
        ∧ tg ⊆ list_to_set (keys Samples.family) ∖ og
        ∧ ht ⊆ list_to_set (keys Samples.family)
        ∧ respects_evidence Samples.family ht)
  ∧ NoDup (main_with accept Samples.family).1.
Proof.
  apply (enumeration_exhaustive_once
           (λ probabilities _ _ _ _, Ok probabilities) Samples.family).
  intros probabilities og tg ht p. exists probabilities. reflexivity.
Defined.

(** ** Pedigrees of founders *)

Lemma find_key_elem_of people person r :
  find_key people person = Some r → (person, r) ∈ people.
Proof.
  induction people as [|[k r'] rest IH]; simpl; [done|].
  case_decide as Hk.
  - intros [= ->]. subst. apply list_elem_of_here.
  - intros H. apply list_elem_of_further. auto.
Qed.

(** X6. In a pedigree where no row records a parent, the joint probability
    is the product, in the order of the rows, of [gene_prob] over the
    people. *)
Theorem founders_joint_probability people og tg ht :
  Forall (λ kr, father kr.2 = None ∧ mother kr.2 = None) people →
  joint_probability people og tg ht
  = Ok (Qprod ((λ person, gene_prob person og tg ht) <$> keys people)).
Proof.
  intros Hf. unfold joint_probability, Qprod. generalize 1.
  assert (keys people ⊆ keys people) as Hs by done. revert Hs.
  generalize (keys people) at 1 3 4.
  induction l as [|person rest IH]; intros Hs joint_p; csimpl; [done|].
  assert (person ∈ keys people) as Hp by apply Hs, list_elem_of_here.
  destruct (getitem_key _ _ Hp) as [r H].
  assert (father r = None ∧ mother r = None) as [Hfa Hmo].
  { rewrite Forall_forall in Hf. apply (Hf (person, r)).
    unfold getitem in H. destruct (find_key people person) eqn:E; [|done].
    injection H as ->. by apply find_key_elem_of. }
  rewrite (person_factors_founder _ _ _ _ _ _ H Hfa Hmo). simpl.
  apply IH. intros x Hx. by apply Hs, list_elem_of_further.
Qed.

Lemma founders_joint_probability_witness :
  joint_probability Samples.lone Samples.nobody Samples.nobody Samples.nobody
  = Ok (Qprod ((λ person, gene_prob person Samples.nobody Samples.nobody Samples.nobody)
                 <$> keys Samples.lone)).
Proof.
  apply (founders_joint_probability Samples.lone).
  apply (bool_decide_unpack _). vm_compute. exact I.
Defined.

(** ** The blocks of a child *)

(** X8. Let the child's bucket range over 0, 1 and 2 while the buckets of
    its two recorded parents stay the same. The three gene factors sum to 1
    in every case but the one of a 2-copy and a 0-copy parent, where they
    sum to 0.9999. *)
Theorem child_gene_factors_total people person r fa mo og0 tg0 og1 tg1 og2 tg2 ht cf cm :
  getitem people person = Ok r →
  father r = Some fa → mother r = Some mo →
  og0 ## tg0 → og1 ## tg1 → og2 ## tg2 →
  copies (name r) og0 tg0 = 0%nat →
  copies (name r) og1 tg1 = 1%nat →
  copies (name r) og2 tg2 = 2%nat →
  copies fa og0 tg0 = cf ∧ copies fa og1 tg1 = cf ∧ copies fa og2 tg2 = cf →
  copies mo og0 tg0 = cm ∧ copies mo og1 tg1 = cm ∧ copies mo og2 tg2 = cm →
  ∃ g0 g1 g2 t0 t1 t2,
    person_factors people person og0 tg0 ht = Ok [g0; t0]
    ∧ person_factors people person og1 tg1 ht = Ok [g1; t1]
    ∧ person_factors people person og2 tg2 ht = Ok [g2; t2]
    ∧ g0 + g1 + g2 == if bool_decide (case_of cf cm = 5%Z) then 0.9999 else 1.
Proof.
  intros H Hf Hm Hd0 Hd1 Hd2 Hc0 Hc1 Hc2 (Hf0 & Hf1 & Hf2) (Hm0 & Hm1 & Hm2).
  rewrite (person_factors_case _ _ _ _ _ _ _ _ H Hf Hm Hd0),
          (person_factors_case _ _ _ _ _ _ _ _ H Hf Hm Hd1),
          (person_factors_case _ _ _ _ _ _ _ _ H Hf Hm Hd2).
  rewrite Hc0, Hc1, Hc2, Hf0, Hf1, Hf2, Hm0, Hm1, Hm2.
  do 6 eexists. split; [reflexivity|]. split; [reflexivity|].
  split; [reflexivity|].
  pose proof (copies_le_2 fa og0 tg0) as Lf. rewrite Hf0 in Lf.
  pose proof (copies_le_2 mo og0 tg0) as Lm. rewrite Hm0 in Lm.
  destruct cf as [|[|[|?]]]; [| | |lia];
    destruct cm as [|[|[|?]]]; try lia; reflexivity.
Qed.

Lemma child_gene_factors_total_witness :
  ∃ g0 g1 g2 t0 t1 t2,
    person_factors Samples.family "Harry"
      Samples.nobody (Samples.only "James") Samples.nobody = Ok [g0; t0]
    ∧ person_factors Samples.family "Harry"
        (Samples.only "Harry") (Samples.only "James") Samples.nobody = Ok [g1; t1]
    ∧ person_factors Samples.family "Harry"
        Samples.nobody (Samples.both "Harry" "James") Samples.nobody = Ok [g2; t2]
    ∧ g0 + g1 + g2 == if bool_decide (case_of 2 0 = 5%Z) then 0.9999 else 1.
Proof.
  apply (child_gene_factors_total Samples.family "Harry" Samples.harry "James" "Lily"
           Samples.nobody (Samples.only "James")
           (Samples.only "Harry") (Samples.only "James")
           Samples.nobody (Samples.both "Harry" "James")
           Samples.nobody 2 0);
    [ reflexivity | reflexivity | reflexivity
    | apply (bool_decide_unpack _); vm_compute; exact I
    | apply (bool_decide_unpack _); vm_compute; exact I
    | apply (bool_decide_unpack _); vm_compute; exact I
    | vm_compute; reflexivity | vm_compute; reflexivity | vm_compute; reflexivity
    | vm_compute; repeat split | vm_compute; repeat split ].
Defined.

(** The factors of a person depend on the pedigree through the person's
    own row only: through its name, whether it is a founder, and the four
    membership tests of [parents]. *)
Lemma person_factors_congr people people' person og tg ht r r' :
  getitem people person = Ok r →
  getitem people' person = Ok r' →
  name r = name r' →
  bool_decide (father r = None) && bool_decide (mother r = None)
  = bool_decide (father r' = None) && bool_decide (mother r' = None) →
  classify (py_in (father r) og) (py_in (father r) tg)
           (py_in (mother r) og) (py_in (mother r) tg)
  = classify (py_in (father r') og) (py_in (father r') tg)
             (py_in (mother r') og) (py_in (mother r') tg) →
  person_factors people person og tg ht = person_factors people' person og tg ht.
Proof.
  intros H H' Hn Hfo Hcl.
  destruct (bool_decide (father r' = None) && bool_decide (mother r' = None)) eqn:E'.
  - unfold person_factors.
    by rewrite (check_parents_eq _ _ _ H), (check_parents_eq _ _ _ H'), Hfo, E'.
  - pose proof (parents_classify _ _ og tg _ H) as Hc.
    pose proof (parents_classify _ _ og tg _ H') as Hc'.
    rewrite Hcl in Hc.
    destruct (classify_total (py_in (father r') og) (py_in (father r') tg)
                (py_in (mother r') og) (py_in (mother r') tg)) as (c & Ec & _).
    rewrite Ec in Hc, Hc'.
    rewrite (person_factors_child _ _ _ _ _ _ _ H Hfo Hc),
            (person_factors_child _ _ _ _ _ _ _ H' E' Hc').
    by rewrite Hn.
Qed.

Lemma classify_swap f1 f2 m1 m2 : classify f1 f2 m1 m2 = classify m1 m2 f1 f2.
Proof. by destruct f1, f2, m1, m2. Qed.

(** X9. Exchanging the mother and the father of a person's row changes
    neither the code [parents] returns nor the factors multiplied in for
    the person. *)
Theorem parents_exchange people people' person r og tg ht :
  getitem people person = Ok r →
  getitem people' person = Ok (swap_parents r) →
  parents people person og tg = parents people' person og tg
  ∧ person_factors people person og tg ht = person_factors people' person og tg ht.
Proof.
  intros H H'. split.
  - rewrite (parents_classify _ _ _ _ _ H), (parents_classify _ _ _ _ _ H').
    simpl. by rewrite classify_swap.
  - eapply person_factors_congr; [exact H|exact H'|done|..]; simpl.
    + apply andb_comm.
    + apply classify_swap.
Qed.

Lemma parents_exchange_witness :
  let swapped := [ ("Harry", swap_parents Samples.harry);
                   ("James", Samples.james); ("Lily", Samples.lily) ] in
  parents Samples.family "Harry" (Samples.only "Lily") (Samples.only "James")
  = parents swapped "Harry" (Samples.only "Lily") (Samples.only "James")
  ∧ person_factors Samples.family "Harry" (Samples.only "Lily") (Samples.only "James")
      Samples.nobody
    = person_factors swapped "Harry" (Samples.only "Lily") (Samples.only "James")
        Samples.nobody.
Proof.
  apply (parents_exchange Samples.family
           [ ("Harry", swap_parents Samples.harry);
             ("James", Samples.james); ("Lily", Samples.lily) ]
           "Harry" Samples.harry);
    reflexivity.
Defined.

(** X10. [parents] never returns [None], whatever the sets are and whether
    or not the parents are recorded: for a key of [people] it returns a code
    between 0 and 5, and for any other name it raises [KeyError] and nothing
    else. *)
Theorem parents_code_or_KeyError people person og tg :
  match parents people person og tg with
  | Ok (Some c) => person ∈ keys people ∧ (0 ≤ c ≤ 5)%Z
  | Ok None => False
  | Raise e => e = KeyError ∧ person ∉ keys people
  end.
Proof.
  destruct (getitem people person) as [r|e] eqn:H.
  - rewrite (parents_classify _ _ _ _ _ H).
    destruct (classify_total (py_in (father r) og) (py_in (father r) tg)
                (py_in (mother r) og) (py_in (mother r) tg)) as (c & -> & Hc).
    split; [by eapply getitem_Ok|done].
  - unfold parents, zero_copies, and_then. rewrite H. simpl.
    unfold getitem in H. destruct (find_key people person) eqn:E; [done|].
    injection H as <-. split; [done|].
    intros Hk. apply find_key_is_Some in Hk as [r' Hr']. congruence.
Qed.

(** X11. A row with a mother and a blank father is not a founder, and its
    factors are those of the same row with a father who is in neither
    [one_gene] nor [two_genes]: a blank parent counts as a parent with no
    copy. *)
Theorem blank_father_as_zero_copies people people' person r r' fa mo og tg ht :
  getitem people person = Ok r →
  getitem people' person = Ok r' →
  name r = name r' →
  mother r = Some mo → mother r' = Some mo →
  father r = None → father r' = Some fa →
  fa ∉ og → fa ∉ tg →
  check_parents people person = Ok false
  ∧ person_factors people person og tg ht = person_factors people' person og tg ht.
Proof.
  intros H H' Hn Hm Hm' Hf Hf' Ho Ht. split.
  - rewrite (check_parents_eq _ _ _ H), Hm. by rewrite andb_comm.
  - eapply person_factors_congr; [exact H|exact H'|done|..].
    + rewrite Hm, Hm', Hf'. by rewrite andb_comm.
    + rewrite Hf, Hf', Hm, Hm'. simpl.
      by rewrite (bool_decide_eq_false_2 _ Ho), (bool_decide_eq_false_2 _ Ht).
Qed.

Lemma blank_father_as_zero_copies_witness :
  check_parents Samples.one_parent "Harry" = Ok false
  ∧ person_factors Samples.one_parent "Harry"
      (Samples.only "Lily") Samples.nobody Samples.nobody
    = person_factors Samples.family "Harry"
        (Samples.only "Lily") Samples.nobody Samples.nobody.
Proof.
  apply (blank_father_as_zero_copies Samples.one_parent Samples.family "Harry"
           {| name := "Harry"; mother := Some "Lily"; father := None; trait := None |}
           Samples.harry "James" "Lily"
           (Samples.only "Lily") Samples.nobody Samples.nobody);
    [ reflexivity | reflexivity | reflexivity | reflexivity | reflexivity
    | reflexivity | reflexivity
    | apply (bool_decide_unpack _); vm_compute; exact I
    | apply (bool_decide_unpack _); vm_compute; exact I ].
Defined.

(** ** The errors of [normalize] *)

Lemma py_sum_numbers (qs : list Q) (a : Q) :
  for_each py_add (VNum <$> qs) (VNum a) = Ok (VNum (fold_left Qplus qs a)).
Proof.
  revert a. induction qs as [|q qs IH]; intros a; csimpl; [done|]. apply IH.
Qed.

Lemma flat_values (d : list (key * Q)) : snd <$> flat d = VNum <$> (snd <$> d).
Proof. unfold flat. by rewrite <-!list_fmap_compose. Qed.

Lemma Qsum_zeros (qs : list Q) (a : Q) :
  Forall (λ q, q == 0) qs → fold_left Qplus qs a == a.
Proof.
  intros Hz. revert a. induction Hz as [|q qs Hq _ IH]; intros a; simpl; [done|].
  rewrite IH, Hq. ring.
Qed.

(** X13. On a dict all of whose values are the number 0, the empty dict
    among them, [normalize] raises [ZeroDivisionError]: the total is 0 and
    [1.0 / total] divides by it. *)
Theorem normalize_all_zero (d : list (key * Q)) :
  Forall (λ kq, kq.2 == 0) d → normalize (flat d) = Raise ZeroDivisionError.
Proof.
  intros Hz. unfold normalize, py_sum. rewrite flat_values, py_sum_numbers. simpl.
  assert (fold_left Qplus (snd <$> d) 0 == 0) as E.
  { apply Qsum_zeros. by apply Forall_fmap. }
  by rewrite (Qeq_eq_bool _ _ E).
Qed.

Lemma normalize_all_zero_witness :
  normalize (flat [(KBool true, 0); (KBool false, 0)]) = Raise ZeroDivisionError.
Proof.
  apply (normalize_all_zero [(KBool true, 0); (KBool false, 0)]).
  apply Forall_cons_2; [reflexivity|].
  apply Forall_cons_2; [reflexivity|]. apply Forall_nil_2.
Defined.

Lemma py_sum_dict (vs : list value) (a : Q) (items : list (key * value)) :
  VDict items ∈ vs → for_each py_add vs (VNum a) = Raise TypeError.
Proof.
  revert a. induction vs as [|v vs IH]; intros a Hin.
  - by apply elem_of_nil in Hin.
  - destruct v as [q|items']; simpl; [|done].
    apply IH. apply elem_of_cons in Hin as [Hin|Hin]; [done|exact Hin].
Qed.

(** X14. A dict among the values of [probabilities], at any place, makes
    [normalize] raise [TypeError]; no value is rescaled. *)
Theorem normalize_nested_anywhere (probabilities : pydict) (k : key)
    (items : list (key * value)) :
  (k, VDict items) ∈ probabilities → normalize probabilities = Raise TypeError.
Proof.
  intros Hin. unfold normalize, py_sum.
  rewrite (py_sum_dict _ _ items); [done|].
  apply list_elem_of_fmap. by exists (k, VDict items).
Qed.

Lemma normalize_nested_anywhere_witness :
  normalize [ (KStr "total", VNum 1); (KStr "Harry", zero_distributions) ]
  = Raise TypeError.
Proof.
  apply (normalize_nested_anywhere
           [ (KStr "total", VNum 1); (KStr "Harry", zero_distributions) ]
           (KStr "Harry")
           [ (KStr "gene", VDict [ (KInt 2, VNum 0); (KInt 1, VNum 0); (KInt 0, VNum 0) ]);
             (KStr "trait", VDict [ (KBool true, VNum 0); (KBool false, VNum 0) ]) ]).
  apply list_elem_of_further, list_elem_of_here.
Defined.

(** ** [load_data] *)

Lemma find_key_store data k r k' :
  find_key (store data k r) k' = if decide (k = k') then Some r else find_key data k'.
Proof.
  induction data as [|[k0 r0] data IH]; simpl.
  - done.
  - destruct (decide (k0 = k)) as [->|Hne]; simpl.
    + by destruct (decide (k = k')).
    + rewrite IH. repeat case_decide; congruence.
Qed.

Lemma keys_store data k r :
  keys (store data k r) = if decide (k ∈ keys data) then keys data else keys data ++ [k].
Proof.
  unfold keys. induction data as [|[k0 r0] data IH].
  - destruct (decide (k ∈ _)) as [Hin|_]; [by apply elem_of_nil in Hin|done].
  - cbn [store]. destruct (decide (k0 = k)) as [->|Hne]; csimpl.
    + clear IH. destruct (decide (k ∈ _)) as [_|Hout]; [done|].
      exfalso. apply Hout, list_elem_of_here.
    + rewrite IH. clear IH. destruct (decide (k ∈ data.*1)) as [Hin|Hout].
      * destruct (decide (k ∈ _ :: _)) as [_|Hout]; [done|].
        exfalso. by apply Hout, list_elem_of_further.
      * destruct (decide (k ∈ _ :: _)) as [Hin|_]; [|done].
        apply elem_of_cons in Hin as [?|?]; [by subst|done].
Qed.

Lemma load_data_snoc rows row :
  load_data (rows ++ [row]) = store (load_data rows) (row_name row) (person_of_row row).
Proof. unfold load_data. by rewrite fold_left_app. Qed.

Lemma last_filter_snoc {A : Type} (P : A → Prop) `{!∀ x, Decision (P x)} (l : list A) (x : A) :
  last (filter P (l ++ [x])) = if decide (P x) then Some x else last (filter P l).
Proof.
  rewrite filter_app. destruct (decide (P x)) as [Hx|Hx].
  - rewrite (filter_cons_True P x []) by done. apply last_snoc.
  - rewrite (filter_cons_False P x []) by done. by rewrite app_nil_r.
Qed.

(** X15. In the dict [load_data] builds, the value under a name is the
    record of the last row with that name, and a name no row has is no
    key. *)
Theorem load_data_last_row_wins (rows : list Row) (person : string) :
  getitem (load_data rows) person
  = match last (filter (λ row, row_name row = person) rows) with
    | Some row => Ok (person_of_row row)
    | None => Raise KeyError
    end.
Proof.
  induction rows as [|row rows IH] using rev_ind; [done|].
  rewrite load_data_snoc, last_filter_snoc.
  unfold getitem in *. rewrite find_key_store.
  destruct (decide (row_name row = person)); [done|exact IH].
Qed.

Lemma load_data_keys (rows : list Row) (person : string) :
  person ∈ keys (load_data rows) ↔ person ∈ row_name <$> rows.
Proof.
  induction rows as [|row rows IH] using rev_ind.
  - split; intros H; by apply elem_of_nil in H.
  - rewrite load_data_snoc, keys_store, fmap_app, elem_of_app, <-IH. csimpl.
    rewrite list_elem_of_singleton.
    destruct (decide (row_name row ∈ keys (load_data rows))) as [Hin|Hout].
    + split; [by left|]. intros [?| ->]; done.
    + by rewrite elem_of_app, list_elem_of_singleton.
Qed.

Lemma load_data_NoDup (rows : list Row) : NoDup (keys (load_data rows)).
Proof.
  induction rows as [|row rows IH] using rev_ind; [constructor|].
  rewrite load_data_snoc, keys_store.
  destruct (decide (row_name row ∈ keys (load_data rows))) as [Hin|Hout]; [done|].
  apply NoDup_app. split; [done|]. split; [|apply NoDup_singleton].
  intros x Hx ->%list_elem_of_singleton. done.
Qed.

Lemma or_None_not_blank (s : string) : or_None s ≠ Some "".
Proof. unfold or_None. case_decide; congruence. Qed.

(** X16. The dict [load_data] builds has one key for each name that heads
    a row, no key twice; every record carries its own key as [name], and a
    parent field is [None] or a name that is not blank. *)
Theorem load_data_well_keyed (rows : list Row) :
  NoDup (keys (load_data rows))
  ∧ (∀ person, person ∈ keys (load_data rows) ↔ person ∈ row_name <$> rows)
  ∧ (∀ person r,
        getitem (load_data rows) person = Ok r →
        name r = person ∧ mother r ≠ Some "" ∧ father r ≠ Some "").
Proof.
  split; [apply load_data_NoDup|]. split; [apply load_data_keys|].
  intros person r. rewrite load_data_last_row_wins.
  destruct (last _) as [row|] eqn:E; [|done].
  intros [= <-]. simpl.
  apply last_Some_elem_of, list_elem_of_filter in E as [E _].
  split; [done|]. split; apply or_None_not_blank.
Qed.
